(** * rulefit_feature_generator: rules of a fitted decision tree

    A shallow embedding of [create_tree_rule_filters]
    (src/rulefit_feature_generator.py) and of its three nested functions
    [_traverse], [_create_rule_filter] and [_create_rule_filter_name],
    followed by the properties of the traversal and of the rules it
    materialises.

    Conventions of the embedding.
    - Python exceptions are the [Err] results of an error monad; the
      exception class is kept.
    - The two list objects that [_traverse] receives ([rule_path], which it
      mutates with [append], and [direction_path]) live in a store of list
      objects and are passed by reference, as in Python.
    - The real-valued cells of the dataset and the thresholds are of an
      arbitrary type [V]; its two comparisons and its textual form are
      parameters, so that nothing is assumed about floating point.
    - The nesting of the calls of [_traverse] is bounded by its [fuel]:
      running out of it is the [RecursionError] result. Python's recursion
      limit bounds the nesting of all calls, those made inside a call of
      [_traverse] included, so a run needs a limit above the [fuel] that it
      needs here. *)

From Stdlib Require Import ZArith String List Lia Bool DecimalString.
From stdpp Require Import base list strings.

Local Open Scope string_scope.
Local Open Scope list_scope.
Local Open Scope Z_scope.

(** ** Exceptions and the error monad *)

Inductive exn : Type :=
  | IndexError          (* a position outside an array, a list or the columns *)
  | TypeError           (* [True & None], [reduce] of an empty sequence *)
  | UnboundLocalError   (* [direction_path_op] read before assignment *)
  | RecursionError.     (* the recursion limit *)

Inductive result (A : Type) : Type :=
  | Ok (a : A)
  | Err (e : exn).
Arguments Ok {A} a.
Arguments Err {A} e.

Definition rbind {A B} (m : result A) (k : A -> result B) : result B :=
  match m with
  | Ok a => k a
  | Err e => Err e
  end.

Notation "x <- m ;; k" := (rbind m (fun x => k))
  (at level 100, m at next level, right associativity).

Definition is_ok {A} (m : result A) : Prop := exists a, m = Ok a.

(** Two runs have the same outcome, which is a value, an [IndexError] or a
    [RecursionError]. *)
Definition same_outcome {A} (m' m : result A) : Prop :=
  m' = m /\ forall e, m = Err e -> e = IndexError \/ e = RecursionError.

(** A comprehension or a [for] loop whose body may raise. *)
Fixpoint map_r {A B} (f : A -> result B) (l : list A) : result (list B) :=
  match l with
  | [] => Ok []
  | x :: l' => y <- f x ;; ys <- map_r f l' ;; Ok (y :: ys)
  end.

Fixpoint fold_r {A B} (f : B -> A -> result B) (l : list A) (acc : B)
  : result B :=
  match l with
  | [] => Ok acc
  | x :: l' => acc' <- f acc x ;; fold_r f l' acc'
  end.

(** ** Indexing

    [a[i]] on a Python list, a numpy array, a pandas [Index] and the
    positions of [iloc]: a negative position counts from the end, and a
    position outside [-len, len) raises [IndexError]. *)
Definition py_getitem {A} (l : list A) (i : Z) : result A :=
  let n := Z.of_nat (length l) in
  let j := if i <? 0 then i + n else i in
  if (0 <=? j) && (j <? n) then
    match l !! Z.to_nat j with
    | Some x => Ok x
    | None => Err IndexError
    end
  else Err IndexError.

(** [a[idx]] for a list [idx] of positions (numpy fancy indexing, and the
    list-like indexer of [iloc]). *)
Definition py_take {A} (l : list A) (idx : list Z) : result (list A) :=
  map_r (py_getitem l) idx.

(** [reduce(f, l)] without an initial value. *)
Definition reduce {A} (f : A -> A -> A) (l : list A) : result A :=
  match l with
  | [] => Err TypeError
  | x :: l' => Ok (fold_left f l' x)
  end.

(** ** The data *)

(** What [rule_filter_srs] holds: the Python constant [True] it starts
    from, or a boolean Series. *)
Inductive pyval : Type :=
  | PyTrue
  | PySeries (v : list bool).

(** The RuleSet, a Python [dict]: assigning to a key that is present
    replaces the value in place, a new key goes to the end. *)
Abbreviation dict A := (list (string * A)).

Fixpoint dict_set {A} (k : string) (v : A) (d : dict A) : dict A :=
  match d with
  | [] => [(k, v)]
  | (k', v') :: d' =>
      if String.eqb k' k then (k', v) :: d' else (k', v') :: dict_set k v d'
  end.

(** The dataset: named columns in order. The columns of one DataFrame
    have the same number of rows and the same index. *)
Abbreviation DataFrame V := (list (string * list V)).

Section RuleFit.

(** The real numbers of the dataset and of the thresholds. *)
Variable V : Type.
Variable le_V : V -> V -> bool.     (* [x <= t] *)
Variable gt_V : V -> V -> bool.     (* [x > t] *)
Variable str_V : V -> string.       (* [f'{t}'] *)
(** [srs & None] for a Series [srs]: what pandas does with it depends on
    its version, so it is left open. *)
Variable series_and_none : list bool -> result pyval.

(** The fitted tree: four parallel arrays indexed by node. *)
Record Tree : Type := mkTree {
  children_left : list Z;
  children_right : list Z;
  feature : list Z;
  threshold : list V
}.

(** Every column of [X] has [n] rows. *)
Definition same_rows (n : nat) (X : DataFrame V) : Prop :=
  Forall (fun c => length (snd c) = n) X.

(** [X.iloc[:, idx]] for a list of positions. *)
Definition iloc_cols (X : DataFrame V) (idx : list Z) : result (DataFrame V) :=
  py_take X idx.

(** [X.iloc[:, i]] and [X.columns[i]] for one position. *)
Definition iloc_col (X : DataFrame V) (i : Z) : result (list V) :=
  c <- py_getitem X i ;; Ok (snd c).

Definition column_name (X : DataFrame V) (i : Z) : result string :=
  c <- py_getitem X i ;; Ok (fst c).

(** ** [_create_rule_filter] *)

(** Falls through, returning [None], on any other direction. *)
Definition _create_single_filter (srs : list V) (threshold : V)
  (direction : string) : option (list bool) :=
  if String.eqb direction "left" then
    Some (map (fun x => le_V x threshold) srs)
  else if String.eqb direction "right" then
    Some (map (fun x => gt_V x threshold) srs)
  else None.

(** [rule_filter_srs & single_filter]. The Series that meet here are
    columns of one DataFrame: they have one index, and [&] is element by
    element. *)
Definition py_and (acc : pyval) (single_filter : option (list bool))
  : result pyval :=
  match acc, single_filter with
  | PyTrue, Some v => Ok (PySeries (map (andb true) v))
  | PySeries a, Some v => Ok (PySeries (zip_with andb a v))
  | PyTrue, None => Err TypeError
  | PySeries a, None => series_and_none a
  end.

Definition _create_rule_filter (X_rule_values : DataFrame V)
  (thresholds : list V) (direction_path : list string) : result pyval :=
  fold_r
    (fun rule_filter_srs i =>
       srs <- iloc_col X_rule_values (Z.of_nat i) ;;
       t <- py_getitem thresholds (Z.of_nat i) ;;
       d <- py_getitem direction_path (Z.of_nat i) ;;
       py_and rule_filter_srs (_create_single_filter srs t d))
    (seq 0 (length direction_path))
    PyTrue.

(** ** [_create_rule_filter_name] *)

Definition _create_single_filter_name (X_rule_values : DataFrame V)
  (thresholds : list V) (direction_path : list string) (i : nat)
  : result string :=
  col_name <- column_name X_rule_values (Z.of_nat i) ;;
  threshold_val <- py_getitem thresholds (Z.of_nat i) ;;
  d <- py_getitem direction_path (Z.of_nat i) ;;
  direction_path_op <-
    (if String.eqb d "left" then Ok "<="
     else if String.eqb d "right" then Ok ">"
     else Err UnboundLocalError) ;;
  Ok (col_name +:+ " " +:+ direction_path_op +:+ " " +:+ str_V threshold_val).

Definition _combine_filter_names (name_1 name_2 : string) : string :=
  name_1 +:+ " & " +:+ name_2.

Definition _create_rule_filter_name (X_rule_values : DataFrame V)
  (thresholds : list V) (direction_path : list string) : result string :=
  filter_names <-
    map_r (_create_single_filter_name X_rule_values thresholds direction_path)
          (seq 0 (length direction_path)) ;;
  reduce _combine_filter_names filter_names.

(** ** The rule of a path, as the specification words it *)

Definition valid_direction (d : string) : Prop := d = "left" \/ d = "right".

(** Conjunct [i] at row [r]: [column_i[r] <= threshold_i] if the direction
    is left, else [column_i[r] > threshold_i]. *)
Definition conjunct_holds (X : DataFrame V) (thresholds : list V)
  (directions : list string) (i r : nat) : bool :=
  match X !! i, thresholds !! i, directions !! i with
  | Some c, Some t, Some d =>
      match snd c !! r with
      | Some x => if String.eqb d "left" then le_V x t else gt_V x t
      | None => false
      end
  | _, _, _ => false
  end.

(** The text ["{column_name_i} {op_i} {threshold_i}"] of conjunct [i]. *)
Definition conjunct_text (X : DataFrame V) (thresholds : list V)
  (directions : list string) (i : nat) : string :=
  match X !! i, thresholds !! i, directions !! i with
  | Some c, Some t, Some d =>
      fst c +:+ " " +:+ (if String.eqb d "left" then "<=" else ">")
            +:+ " " +:+ str_V t
  | _, _, _ => ""
  end.

(** Row-wise AND of the conjuncts at positions [0 .. len(directions)-1],
    for the rows [0 .. n-1]. *)
Definition spec_rule_filter (X : DataFrame V) (thresholds : list V)
  (directions : list string) (n : nat) : list bool :=
  map (fun r =>
         forallb (fun i => conjunct_holds X thresholds directions i r)
                 (seq 0 (length directions)))
      (seq 0 n).

(** The conjunct texts joined by [" & "], in path order. *)
Definition spec_rule_name (X : DataFrame V) (thresholds : list V)
  (directions : list string) : string :=
  String.concat " & "
    (map (conjunct_text X thresholds directions)
         (seq 0 (length directions))).

(** Two trees that differ at most in [feature[m]] and [threshold[m]]. *)
Definition differ_only_at (m : nat) (t t' : Tree) : Prop :=
  children_left t = children_left t' /\
  children_right t = children_right t' /\
  length (feature t) = length (feature t') /\
  length (threshold t) = length (threshold t') /\
  forall i, i <> m ->
    feature t !! i = feature t' !! i /\ threshold t !! i = threshold t' !! i.

(** ** The store of list objects

    [rule_path] and [direction_path] are references to list objects;
    [append] mutates the object in place, while [copy] and [+] allocate a
    new one. A reference is the position of its object in the store. The
    RuleSet [rules_dict], shared by all calls, lives in the store too. *)
Record store : Type := mkStore {
  int_lists : list (list Z);
  str_lists : list (list string);
  rules_dict : dict pyval
}.

Definition read_ints (r : nat) (s : store) : list Z :=
  default [] (int_lists s !! r).

Definition read_strs (r : nat) (s : store) : list string :=
  default [] (str_lists s !! r).

Definition alloc_ints (l : list Z) (s : store) : nat * store :=
  (length (int_lists s),
   mkStore (int_lists s ++ [l]) (str_lists s) (rules_dict s)).

Definition alloc_strs (l : list string) (s : store) : nat * store :=
  (length (str_lists s),
   mkStore (int_lists s) (str_lists s ++ [l]) (rules_dict s)).

(** [r.append(x)] *)
Definition list_append (r : nat) (x : Z) (s : store) : store :=
  mkStore (<[r := read_ints r s ++ [x]]> (int_lists s))
          (str_lists s) (rules_dict s).

(** [r.copy()] *)
Definition ints_copy (r : nat) (s : store) : nat * store :=
  alloc_ints (read_ints r s) s.

Definition strs_copy (r : nat) (s : store) : nat * store :=
  alloc_strs (read_strs r s) s.

(** [r + l] *)
Definition strs_concat (r : nat) (l : list string) (s : store)
  : nat * store :=
  alloc_strs (read_strs r s ++ l) s.

(** [rules_dict[k] = v] *)
Definition rules_store (k : string) (v : pyval) (s : store) : store :=
  mkStore (int_lists s) (str_lists s) (dict_set k v (rules_dict s)).

(** The effect of a call that adds no rule: the object [rp] has become
    [path], the other objects of [s] and the RuleSet are as they were. *)
Definition quiet (rp : nat) (path : list Z) (s s' : store) : Prop :=
  rules_dict s' = rules_dict s /\
  exists fi, int_lists s' = <[rp := path]> (int_lists s) ++ fi.

(** The keys of the RuleSet of [s] are keys of the RuleSet of [s']. *)
Definition keeps_keys (s s' : store) : Prop :=
  forall k, In k (map fst (rules_dict s)) -> In k (map fst (rules_dict s')).

(** ** [_traverse] and [create_tree_rule_filters] *)

Section Traversal.

Variable X_values : DataFrame V.
Variable tree : Tree.

(** Lines 41 to 49: the columns and the thresholds that the path selects,
    then the Series and the name of its rule. *)
Definition rule_for_path (rule_path : list Z) (direction_path : list string)
  : result (string * pyval) :=
  features <- py_take (feature tree) rule_path ;;
  X_rule_values <- iloc_cols X_values features ;;
  thresholds <- py_take (threshold tree) rule_path ;;
  rule_filter_srs <-
    _create_rule_filter X_rule_values thresholds direction_path ;;
  rule_filter_name <-
    _create_rule_filter_name X_rule_values thresholds direction_path ;;
  Ok (rule_filter_name, rule_filter_srs).

Fixpoint _traverse (fuel : nat) (parent_index : Z)
  (rule_path direction_path : nat) (s : store) : result store :=
  match fuel with
  | O => Err RecursionError
  | S fuel' =>
      left_child_index <- py_getitem (children_left tree) parent_index ;;
      right_child_index <- py_getitem (children_right tree) parent_index ;;
      let s := list_append rule_path parent_index s in
      s <- (if (2 <? length (read_ints rule_path s))%nat then
              rule <- rule_for_path (read_ints rule_path s)
                                    (read_strs direction_path s) ;;
              Ok (rules_store (fst rule) (snd rule) s)
            else Ok s) ;;
      s <- (if 0 <=? left_child_index then
              let '(rule_path_left, s) := ints_copy rule_path s in
              let '(tmp, s) := strs_concat direction_path ["left"] s in
              let '(direction_path_left, s) := strs_copy tmp s in
              _traverse fuel' left_child_index
                        rule_path_left direction_path_left s
            else Ok s) ;;
      if 0 <=? right_child_index then
        let '(rule_path_right, s) := ints_copy rule_path s in
        let '(tmp, s) := strs_concat direction_path ["right"] s in
        let '(direction_path_right, s) := strs_copy tmp s in
        _traverse fuel' right_child_index
                  rule_path_right direction_path_right s
      else Ok s
  end.

(** Lines 124 to 134: two empty lists, an empty dict, the traversal from
    the root. *)
Definition create_tree_rule_filters (fuel : nat) : result (dict pyval) :=
  let s := mkStore [] [] [] in
  let '(rule_path, s) := alloc_ints [] s in
  let '(direction_path, s) := alloc_strs [] s in
  s <- _traverse fuel 0 rule_path direction_path s ;;
  Ok (rules_dict s).

(** ** Chains of ancestors and the invariants of the traversal *)

(** The chains of ancestors, read off [children_left] and
    [children_right] alone: the node indices from the root to a node, and
    the direction of each edge on the way. *)
Inductive ancestor_chain : list Z -> list string -> Prop :=
  | chain_root : ancestor_chain [0] []
  | chain_left p a c d :
      ancestor_chain (p ++ [a]) d ->
      py_getitem (children_left tree) a = Ok c -> 0 <= c ->
      ancestor_chain ((p ++ [a]) ++ [c]) (d ++ ["left"])
  | chain_right p a c d :
      ancestor_chain (p ++ [a]) d ->
      py_getitem (children_right tree) a = Ok c -> 0 <= c ->
      ancestor_chain ((p ++ [a]) ++ [c]) (d ++ ["right"]).

(** [reaches p d q e]: the chain [(q, e)] is the chain [(p, d)] or one that
    continues it, downwards from the last node of [p]. *)
Inductive reaches : list Z -> list string -> list Z -> list string -> Prop :=
  | reaches_here p d : reaches p d p d
  | reaches_left p a c d q e :
      py_getitem (children_left tree) a = Ok c -> 0 <= c ->
      reaches ((p ++ [a]) ++ [c]) (d ++ ["left"]) q e ->
      reaches (p ++ [a]) d q e
  | reaches_right p a c d q e :
      py_getitem (children_right tree) a = Ok c -> 0 <= c ->
      reaches ((p ++ [a]) ++ [c]) (d ++ ["right"]) q e ->
      reaches (p ++ [a]) d q e.

(** The split of node [i] names a column of the dataset and has a
    threshold. *)
Definition split_ok (i : Z) : Prop :=
  exists f, py_getitem (feature tree) i = Ok f /\
            is_ok (py_getitem X_values f) /\
            is_ok (py_getitem (threshold tree) i).

(** [is_leaf node]: both children are the negative sentinel. *)
Definition is_leaf (node : Z) : bool :=
  match py_getitem (children_left tree) node,
        py_getitem (children_right tree) node with
  | Ok l, Ok r => (l <? 0) && (r <? 0)
  | _, _ => false
  end.

(** [depth_le d node]: below [node] every path has at most [d] edges (so
    at most [d] splits, the last node of a path being a leaf). *)
Fixpoint depth_le (d : nat) (node : Z) {struct d} : bool :=
  match py_getitem (children_left tree) node,
        py_getitem (children_right tree) node with
  | Ok l, Ok r =>
      let below c :=
        if 0 <=? c then
          match d with O => false | S d' => depth_le d' c end
        else true in
      below l && below r
  | _, _ => false
  end.

(** The entry [(k, v)] is the rule of a chain of ancestors of more than two
    nodes. *)
Definition rule_of_chain (k : string) (v : pyval) : Prop :=
  exists p d,
    ancestor_chain p d /\ (2 < length p)%nat /\
    rule_for_path p d = Ok (k, v).

(** From [s] to [s'] no list object of [s] has changed, and every new entry
    of the RuleSet is the rule of a chain. *)
Definition frame (s s' : store) : Prop :=
  (exists fi, int_lists s' = int_lists s ++ fi) /\
  (exists fs, str_lists s' = str_lists s ++ fs) /\
  (forall k v, In (k, v) (rules_dict s') ->
               In (k, v) (rules_dict s) \/ rule_of_chain k v).

(** The effect of one call [_traverse(node, rp, _)]: the object [rp] has
    become [path], and nothing else has changed in the objects of [s]. *)
Definition visited (rp : nat) (path : list Z) (s s' : store) : Prop :=
  (exists fi, int_lists s' = <[rp := path]> (int_lists s) ++ fi) /\
  (exists fs, str_lists s' = str_lists s ++ fs) /\
  (forall k v, In (k, v) (rules_dict s') ->
               In (k, v) (rules_dict s) \/ rule_of_chain k v).

End Traversal.

End RuleFit.

Arguments mkTree {V}.
Arguments children_left {V}.
Arguments children_right {V}.
Arguments feature {V}.
Arguments threshold {V}.
Arguments same_rows {V}.
Arguments iloc_cols {V}.
Arguments iloc_col {V}.
Arguments column_name {V}.
Arguments _create_single_filter {V}.
Arguments _create_rule_filter {V}.
Arguments _create_single_filter_name {V}.
Arguments _create_rule_filter_name {V}.
Arguments conjunct_holds {V}.
Arguments conjunct_text {V}.
Arguments spec_rule_filter {V}.
Arguments spec_rule_name {V}.
Arguments differ_only_at {V}.
Arguments rule_for_path {V}.
Arguments _traverse {V}.
Arguments create_tree_rule_filters {V}.
Arguments ancestor_chain {V}.
Arguments chain_root {V}.
Arguments chain_left {V}.
Arguments chain_right {V}.
Arguments reaches {V}.
Arguments split_ok {V}.
Arguments reaches_here {V}.
Arguments reaches_left {V}.
Arguments reaches_right {V}.
Arguments is_leaf {V}.
Arguments depth_le {V}.
Arguments rule_of_chain {V}.
Arguments frame {V}.
Arguments visited {V}.

(** ** Integer-valued instances, to run the embedding *)
Module Run.

Definition str_Z (z : Z) : string := NilZero.string_of_int (Z.to_int z).

(** pandas 2: [srs & None] raises. *)
Definition and_none (_ : list bool) : result pyval := Err TypeError.

Definition run (fuel : nat) (X : DataFrame Z) (t : Tree Z)
  : result (dict pyval) :=
  create_tree_rule_filters Z.leb Z.gtb str_Z and_none X t fuel.

(** Two columns and three rows. *)
Definition X2 : DataFrame Z :=
  [("a", [1; 6; 7]); ("b", [3; 10; 11])].

(** The tree of five nodes: the root 0 splits column 0 at 5, its left
    child 1 is a leaf, its right child 2 splits column 1 at 10 and has the
    leaves 3 and 4. Leaves carry sklearn's -1 children, -2 feature and -2
    threshold. *)
Definition tree5 : Tree Z :=
  mkTree [1; -1; 3; -1; -1] [2; -1; 4; -1; -1]
         [0; -2; 1; -2; -2] [5; -2; 10; -2; -2].

(** The same tree with a root that splits column -1. *)
Definition tree5_neg : Tree Z :=
  mkTree [1; -1; 3; -1; -1] [2; -1; 4; -1; -1]
         [-1; -2; 1; -2; -2] [5; -2; 10; -2; -2].

(** The same tree with another split recorded at node 3. *)
Definition tree5_alt : Tree Z :=
  mkTree [1; -1; 3; -1; -1] [2; -1; 4; -1; -1]
         [0; -2; 1; 0; -2] [5; -2; 10; 99; -2].

(** A root with two leaves, and a root that is a leaf. *)
Definition tree3 : Tree Z :=
  mkTree [1; -1; -1] [2; -1; -1] [0; -2; -2] [5; -2; -2].

Definition tree1 : Tree Z := mkTree [-1] [-1] [-2] [-2].

(** Two columns and no row; no column. *)
Definition X_no_rows : DataFrame Z := [("a", []); ("b", [])].
Definition X_no_columns : DataFrame Z := [].

Definition rule_of (X : DataFrame Z) (t : Tree Z) (p : list Z)
  (d : list string) : result (string * pyval) :=
  rule_for_path Z.leb Z.gtb str_Z and_none X t p d.

End Run.

(** ** Further notions for the properties of the traversal *)

(** [m'] is the outcome [m] unless [m] is the [RecursionError]. *)
Definition same_unless_recursion {A} (m m' : result A) : Prop :=
  m <> Err RecursionError -> m' = m.

(** [d[k]] on a Python [dict]; [None] stands for the [KeyError]. *)
Fixpoint dict_get {A} (k : string) (d : dict A) : option A :=
  match d with
  | [] => None
  | (k', v) :: d' => if String.eqb k' k then Some v else dict_get k d'
  end.

(** The test [direction == 'left' or direction == 'right']. *)
Definition valid_directionb (d : string) : bool :=
  String.eqb d "left" || String.eqb d "right".

(** The separator after each text, and before each text. *)
Definition join_before (sep : string) (ts : list string) : string :=
  fold_right (fun t acc => t +:+ sep +:+ acc) "" ts.

Definition join_after (sep : string) (ts : list string) : string :=
  fold_right (fun t acc => sep +:+ t +:+ acc) "" ts.

Section Preorder.

Context {V : Type} (str_V : V -> string).
Variable tree : Tree V.

(** The calls of [_traverse] below the call on [node], in the order in
    which they are made, each with the [rule_path] it has after its
    [append] and with its [direction_path]: the node, then what its left
    child visits, then what its right child visits. *)
Fixpoint visits (fuel : nat) (node : Z) (rule_path : list Z)
  (direction_path : list string) : list (list Z * list string) :=
  match fuel with
  | O => []
  | S fuel' =>
      match py_getitem (children_left tree) node,
            py_getitem (children_right tree) node with
      | Ok left_child_index, Ok right_child_index =>
          (rule_path ++ [node], direction_path) ::
          (if 0 <=? left_child_index then
             visits fuel' left_child_index (rule_path ++ [node])
                    (direction_path ++ ["left"])
           else []) ++
          (if 0 <=? right_child_index then
             visits fuel' right_child_index (rule_path ++ [node])
                    (direction_path ++ ["right"])
           else [])
      | _, _ => []
      end
  end.

(** The test [len(rule_path) > 2] on a visit. *)
Definition deep (visit : list Z * list string) : bool :=
  (2 <? length (fst visit))%nat.

(** What the names of all the paths that start with the directions [c]
    and go on below the node reached by [c] begin with: the texts of the
    conjuncts of [c], each followed by the separator, then the column name
    of that node and a space. [Xc] and [thc] are the columns and the
    thresholds selected by the path of [c]. *)
Definition name_prefix (Xc : DataFrame V) (thc : list V) (c : list string)
  : string :=
  join_before " & " (map (conjunct_text str_V Xc thc c) (seq 0 (length c)))
  +:+ match Xc !! length c with Some col => fst col | None => "" end
  +:+ " ".

End Preorder.

(** * Properties *)

(** ** The error monad and the loops *)

Lemma rbind_ok {A B} (m : result A) (k : A -> result B) (b : B) :
  rbind m k = Ok b -> exists a, m = Ok a /\ k a = Ok b.
Proof. destruct m as [a|e]; simpl; [eauto | discriminate]. Qed.

(** Splits a hypothesis [x <- m ;; k = Ok b] into the two steps. *)
Ltac inv_bind H :=
  let a := fresh "a" in
  let Ha := fresh "Ha" in
  apply rbind_ok in H; destruct H as (a & Ha & H).

Lemma fold_r_app {A B} (f : B -> A -> result B) (l1 l2 : list A) (acc : B) :
  fold_r f (l1 ++ l2) acc = rbind (fold_r f l1 acc) (fold_r f l2).
Proof.
  revert acc. induction l1 as [|x l1 IH]; intros acc; simpl; [reflexivity|].
  destruct (f acc x); simpl; [apply IH | reflexivity].
Qed.

Lemma map_r_pointwise {A B} (f : A -> result B) (g : A -> B) (l : list A) :
  Forall (fun x => f x = Ok (g x)) l -> map_r f l = Ok (map g l).
Proof.
  induction 1 as [|x l Hx _ IH]; simpl; [reflexivity|].
  rewrite Hx. simpl. rewrite IH. reflexivity.
Qed.

Lemma map_r_length {A B} (f : A -> result B) (l : list A) (ys : list B) :
  map_r f l = Ok ys -> length ys = length l.
Proof.
  revert ys. induction l as [|x l IH]; intros ys H; simpl in H.
  - injection H as <-. reflexivity.
  - inv_bind H. inv_bind H. injection H as <-. simpl. f_equal. eauto.
Qed.

Lemma map_r_app {A B} (f : A -> result B) (l1 l2 : list A) :
  map_r f (l1 ++ l2) =
  rbind (map_r f l1) (fun y1 => rbind (map_r f l2) (fun y2 => Ok (y1 ++ y2))).
Proof.
  induction l1 as [|x l1 IH]; simpl.
  - destruct (map_r f l2); reflexivity.
  - destruct (f x); simpl; [|reflexivity]. rewrite IH.
    destruct (map_r f l1); simpl; [|reflexivity].
    destruct (map_r f l2); reflexivity.
Qed.

Lemma map_r_err {A B} (f : A -> result B) (l : list A) (x : A) :
  In x l -> (exists e, f x = Err e) -> exists e, map_r f l = Err e.
Proof.
  intros Hin [e He]. induction l as [|x0 l IH]; [destruct Hin|].
  simpl. destruct Hin as [->|Hin].
  - rewrite He. simpl. eauto.
  - destruct (f x0); simpl; [|eauto].
    destruct (IH Hin) as [e' ->]. simpl. eauto.
Qed.

Lemma rbind_ret {A B} (a : A) (k : A -> result B) : rbind (Ok a) k = k a.
Proof. reflexivity. Qed.

Lemma map_r_In {A B} (f : A -> result B) (l : list A) (ys : list B) (x : A) :
  map_r f l = Ok ys -> In x l -> exists y, f x = Ok y /\ In y ys.
Proof.
  revert ys. induction l as [|x0 l IH]; intros ys H Hin; [destruct Hin|].
  simpl in H. inv_bind H. inv_bind H. injection H as <-.
  destruct Hin as [->|Hin].
  - exists a. split; [exact Ha | left; reflexivity].
  - destruct (IH _ Ha0 Hin) as (y & Hy & Hiny). exists y. split; [exact Hy|].
    right. exact Hiny.
Qed.

Lemma map_r_Forall {A B} (f : A -> result B) (P : B -> Prop) (l : list A)
  (ys : list B) :
  (forall x y, f x = Ok y -> P y) -> map_r f l = Ok ys -> Forall P ys.
Proof.
  intros Hf. revert ys. induction l as [|x l IH]; intros ys H; simpl in H.
  - injection H as <-. constructor.
  - inv_bind H. inv_bind H. injection H as <-. constructor; eauto.
Qed.

Lemma map_r_err_class {A B} (f : A -> result B) (l : list A) (e : exn) :
  (forall x e, f x = Err e -> e = IndexError) ->
  map_r f l = Err e -> e = IndexError.
Proof.
  intros Hf. induction l as [|x l IH]; simpl; [discriminate|].
  destruct (f x) eqn:Hx; simpl; [|intros [= <-]; eauto].
  destruct (map_r f l); simpl; [discriminate|].
  intros [= <-]. auto.
Qed.

Lemma map_r_ext {A B} (f g : A -> result B) (l : list A) :
  (forall x, In x l -> f x = g x) -> map_r f l = map_r g l.
Proof.
  induction l as [|x l IH]; intros H; [reflexivity|]. simpl.
  rewrite (H x) by (left; reflexivity).
  rewrite IH by (intros y Hy; apply H; right; exact Hy). reflexivity.
Qed.

Lemma fold_r_ext {A B} (f g : B -> A -> result B) (l : list A) (acc : B) :
  (forall b x, In x l -> f b x = g b x) -> fold_r f l acc = fold_r g l acc.
Proof.
  revert acc. induction l as [|x l IH]; intros acc H; [reflexivity|]. simpl.
  rewrite (H acc x) by (left; reflexivity).
  destruct (g acc x); simpl; [|reflexivity].
  apply IH. intros b y Hy. apply H. right. exact Hy.
Qed.

(** ** Indexing *)

Lemma py_getitem_nat {A} (l : list A) (i : nat) :
  py_getitem l (Z.of_nat i) =
  match l !! i with Some x => Ok x | None => Err IndexError end.
Proof.
  unfold py_getitem.
  destruct (Z.ltb_spec (Z.of_nat i) 0) as [?|_]; [lia|].
  destruct (Z.leb_spec 0 (Z.of_nat i)) as [_|?]; [|lia].
  rewrite Nat2Z.id. simpl.
  destruct (Z.ltb_spec (Z.of_nat i) (Z.of_nat (length l))) as [?|Hge];
    [reflexivity|].
  rewrite (proj2 (lookup_ge_None l i)); [reflexivity | lia].
Qed.

Lemma py_getitem_range {A} (l : list A) (i : Z) :
  i < - Z.of_nat (length l) \/ Z.of_nat (length l) <= i ->
  py_getitem l i = Err IndexError.
Proof.
  intros H. unfold py_getitem.
  destruct (Z.ltb_spec i 0).
  - destruct (Z.leb_spec 0 (i + Z.of_nat (length l))); [lia|reflexivity].
  - destruct (Z.leb_spec 0 i); [|lia].
    destruct (Z.ltb_spec i (Z.of_nat (length l))); [lia|reflexivity].
Qed.

Lemma lookup_map {A B} (f : A -> B) (l : list A) (i : nat) :
  map f l !! i = option_map f (l !! i).
Proof.
  revert i. induction l as [|x l IH]; intros [|i]; simpl; auto.
Qed.

Lemma py_getitem_elem {A} (l : list A) (i : Z) (x : A) :
  py_getitem l i = Ok x -> x ∈ l.
Proof.
  unfold py_getitem.
  destruct (_ && _); [|discriminate].
  destruct (l !! _) as [y|] eqn:Hy; [|discriminate].
  intros [= <-]. eapply list_elem_of_lookup_2; eauto.
Qed.

Lemma py_getitem_err {A} (l : list A) (i : Z) (e : exn) :
  py_getitem l i = Err e -> e = IndexError.
Proof.
  unfold py_getitem.
  destruct (_ && _); [|congruence].
  destruct (l !! _); congruence.
Qed.

Lemma py_getitem_agree {A} (l l' : list A) (i : Z) :
  0 <= i -> length l = length l' -> l !! Z.to_nat i = l' !! Z.to_nat i ->
  py_getitem l i = py_getitem l' i.
Proof.
  intros Hi Hlen Hl. unfold py_getitem. rewrite <- Hlen.
  destruct (Z.ltb_spec i 0); [lia|]. rewrite Hl. reflexivity.
Qed.

Lemma py_take_err {A} (l : list A) (idx : list Z) (e : exn) :
  py_take l idx = Err e -> e = IndexError.
Proof. apply map_r_err_class. intros x e'. apply py_getitem_err. Qed.

Lemma py_take_snoc {A} (l : list A) (p : list Z) (m : Z) (ys : list A) :
  py_take l (p ++ [m]) = Ok ys ->
  exists yp y, py_take l p = Ok yp /\ py_getitem l m = Ok y /\
               ys = yp ++ [y].
Proof.
  unfold py_take. rewrite map_r_app. intros H.
  apply rbind_ok in H. destruct H as (yp & Hyp & H).
  apply rbind_ok in H. destruct H as (y1 & Hy1 & H). injection H as <-.
  simpl in Hy1. destruct (py_getitem l m) as [y|]; [|discriminate].
  injection Hy1 as <-. exists yp, y. auto.
Qed.

Lemma py_take_snoc_ok {A} (l : list A) (p : list Z) (m : Z) (yp : list A)
  (y : A) :
  py_take l p = Ok yp -> py_getitem l m = Ok y ->
  py_take l (p ++ [m]) = Ok (yp ++ [y]).
Proof.
  unfold py_take. rewrite map_r_app. intros -> H. simpl. rewrite H.
  reflexivity.
Qed.

Lemma py_take_agree {A} (l l' : list A) (m : nat) (p : list Z) :
  length l = length l' -> (forall i, i <> m -> l !! i = l' !! i) ->
  Forall (fun i => 0 <= i) p -> ~ In (Z.of_nat m) p ->
  py_take l p = py_take l' p.
Proof.
  intros Hlen Hl Hp Hm. apply map_r_ext. intros i Hi.
  rewrite Forall_forall in Hp. apply list_elem_of_In in Hi.
  pose proof (Hp _ Hi) as Hi0. apply py_getitem_agree; auto.
  apply Hl. intros Heq. subst m. apply Hm. apply list_elem_of_In.
  rewrite Z2Nat.id by lia. exact Hi.
Qed.

(** ** Strings *)

Lemma append_assoc (s1 s2 s3 : string) :
  (s1 +:+ s2) +:+ s3 = s1 +:+ s2 +:+ s3.
Proof.
  induction s1 as [|c s1 IH]; [reflexivity|].
  change (String c ((s1 +:+ s2) +:+ s3) = String c (s1 +:+ s2 +:+ s3)).
  now rewrite IH.
Qed.

Lemma concat_cons (sep x : string) (l : list string) :
  l <> [] -> String.concat sep (x :: l) = x +:+ sep +:+ String.concat sep l.
Proof. destruct l; [congruence | reflexivity]. Qed.

(** [reduce] with [_combine_filter_names] is the join with [" & "]. *)
Lemma reduce_combine_join (x : string) (l : list string) :
  fold_left _combine_filter_names l x = String.concat " & " (x :: l).
Proof.
  revert x. induction l as [|y l IH]; intros x; [reflexivity|].
  simpl fold_left. rewrite IH. unfold _combine_filter_names.
  destruct l as [|z l].
  - reflexivity.
  - rewrite !concat_cons by discriminate. rewrite !append_assoc. reflexivity.
Qed.

(** ** The RuleSet and the store *)

Lemma In_dict_set {A} (k k0 : string) (v v0 : A) (d : dict A) :
  In (k, v) (dict_set k0 v0 d) -> (k, v) = (k0, v0) \/ In (k, v) d.
Proof.
  induction d as [|[k' v'] d IH]; simpl.
  - intros [H|[]]. left. congruence.
  - destruct (String.eqb_spec k' k0) as [->|Hne]; simpl.
    + intros [H|H]; [left; congruence | right; right; exact H].
    + intros [H|H]; [right; left; exact H|].
      destruct (IH H) as [?|?]; [left | right; right]; assumption.
Qed.

Lemma dict_set_keys {A} (k k0 : string) (v0 : A) (d : dict A) :
  In k (map fst d) -> In k (map fst (dict_set k0 v0 d)).
Proof.
  induction d as [|[k' v'] d IH]; simpl; [tauto|].
  destruct (String.eqb k' k0); simpl; tauto.
Qed.

Lemma dict_set_key_in {A} (k0 : string) (v0 : A) (d : dict A) :
  In k0 (map fst (dict_set k0 v0 d)).
Proof.
  induction d as [|[k' v'] d IH]; simpl; [auto|].
  destruct (String.eqb_spec k' k0) as [->|_]; simpl; auto.
Qed.

Lemma read_ints_lookup (s : store) (r : nat) (l : list Z) :
  int_lists s !! r = Some l -> read_ints r s = l.
Proof. unfold read_ints. intros ->. reflexivity. Qed.

Lemma read_strs_lookup (s : store) (r : nat) (l : list string) :
  str_lists s !! r = Some l -> read_strs r s = l.
Proof. unfold read_strs. intros ->. reflexivity. Qed.

Lemma insert_at_end {A} (l : list A) (x y : A) :
  <[length l := y]> (l ++ [x]) = l ++ [y].
Proof.
  rewrite insert_app_r_alt by lia. rewrite Nat.sub_diag. reflexivity.
Qed.

Lemma lookup_at_end {A} (l : list A) (x : A) :
  (l ++ [x]) !! length l = Some x.
Proof. apply list_lookup_middle. reflexivity. Qed.

(** ** The filter and the name of one path *)

Section Properties.

Context {V : Type} (le_V gt_V : V -> V -> bool) (str_V : V -> string)
        (series_and_none : list bool -> result pyval).

Lemma single_filter_valid (srs : list V) (t : V) (d : string) :
  valid_direction d ->
  _create_single_filter le_V gt_V srs t d =
  Some (map (fun x => if String.eqb d "left" then le_V x t else gt_V x t) srs).
Proof. intros [-> | ->]; reflexivity. Qed.

Lemma filter_loop (X : DataFrame V) (ths : list V) (dirs : list string)
  (n k : nat) :
  same_rows n X -> Forall valid_direction dirs ->
  (k <= length dirs)%nat -> (length dirs <= length X)%nat ->
  (length dirs <= length ths)%nat ->
  fold_r
    (fun rule_filter_srs i =>
       srs <- iloc_col X (Z.of_nat i) ;;
       t <- py_getitem ths (Z.of_nat i) ;;
       d <- py_getitem dirs (Z.of_nat i) ;;
       py_and series_and_none rule_filter_srs
              (_create_single_filter le_V gt_V srs t d))
    (seq 0 k) PyTrue =
  Ok (match k with
      | O => PyTrue
      | S _ =>
          PySeries
            (map (fun r =>
                    forallb (fun i => conjunct_holds le_V gt_V X ths dirs i r)
                            (seq 0 k))
                 (seq 0 n))
      end).
Proof.
  intros Hrows Hdirs Hk HX Hths. induction k as [|k IH]; [reflexivity|].
  rewrite seq_S, Nat.add_0_l, fold_r_app, IH by lia. simpl rbind.
  destruct (lookup_lt_is_Some_2 X k) as [c Hc]; [lia|].
  destruct (lookup_lt_is_Some_2 ths k) as [t Ht]; [lia|].
  destruct (lookup_lt_is_Some_2 dirs k) as [d Hd]; [lia|].
  unfold iloc_col. rewrite !py_getitem_nat, Hc, Ht, Hd. simpl rbind.
  rewrite single_filter_valid by (eapply Forall_lookup_1; eauto).
  assert (Hlen : length (snd c) = n).
  { unfold same_rows in Hrows. rewrite Forall_lookup in Hrows. eauto. }
  assert (Hcol : forall r, conjunct_holds le_V gt_V X ths dirs k r =
            match snd c !! r with
            | Some x => if String.eqb d "left" then le_V x t else gt_V x t
            | None => false
            end).
  { intros r. unfold conjunct_holds. rewrite Hc, Ht, Hd. reflexivity. }
  assert (Hrow : forall r x, snd c !! r = Some x -> seq 0 n !! r = Some r).
  { intros r x Hx. apply lookup_lt_Some in Hx.
    rewrite lookup_seq_lt by lia. reflexivity. }
  assert (Hout : forall r, snd c !! r = None -> seq 0 n !! r = None).
  { intros r Hx. apply lookup_ge_None in Hx. apply lookup_ge_None.
    rewrite length_seq. lia. }
  destruct k as [|k]; simpl py_and; simpl rbind; do 2 f_equal;
    apply list_eq; intros r; rewrite ?lookup_zip_with, !lookup_map;
    destruct (snd c !! r) as [x|] eqn:Hx.
  - rewrite (Hrow _ _ Hx). simpl. rewrite Hcol, Hx.
    destruct (if String.eqb d "left" then le_V x t else gt_V x t); reflexivity.
  - rewrite (Hout _ Hx). reflexivity.
  - rewrite (Hrow _ _ Hx). simpl option_map. cbn [mbind option_bind].
    rewrite forallb_app. simpl. rewrite Hcol, Hx, andb_true_r, andb_assoc.
    reflexivity.
  - rewrite (Hout _ Hx). reflexivity.
Qed.

Lemma create_rule_filter_spec (X : DataFrame V) (ths : list V)
  (dirs : list string) (n : nat) :
  dirs <> [] -> Forall valid_direction dirs ->
  (length dirs <= length X)%nat -> (length dirs <= length ths)%nat ->
  same_rows n X ->
  _create_rule_filter le_V gt_V series_and_none X ths dirs =
  Ok (PySeries (spec_rule_filter le_V gt_V X ths dirs n)).
Proof.
  intros Hne Hdirs HX Hths Hrows. unfold _create_rule_filter.
  rewrite (filter_loop X ths dirs n (length dirs)) by (auto; lia).
  destruct dirs; [congruence | reflexivity].
Qed.

Lemma single_filter_name_spec (X : DataFrame V) (ths : list V)
  (dirs : list string) (i : nat) :
  Forall valid_direction dirs ->
  (length dirs <= length X)%nat -> (length dirs <= length ths)%nat ->
  (i < length dirs)%nat ->
  _create_single_filter_name str_V X ths dirs i =
  Ok (conjunct_text str_V X ths dirs i).
Proof.
  intros Hdirs HX Hths Hi.
  destruct (lookup_lt_is_Some_2 X i) as [c Hc]; [lia|].
  destruct (lookup_lt_is_Some_2 ths i) as [t Ht]; [lia|].
  destruct (lookup_lt_is_Some_2 dirs i) as [d Hd]; [lia|].
  unfold _create_single_filter_name, column_name, conjunct_text.
  rewrite !py_getitem_nat, Hc, Ht, Hd. simpl rbind.
  assert (Hv : valid_direction d) by (eapply Forall_lookup_1; eauto).
  destruct Hv as [-> | ->]; reflexivity.
Qed.

Lemma create_rule_filter_name_spec (X : DataFrame V) (ths : list V)
  (dirs : list string) :
  dirs <> [] -> Forall valid_direction dirs ->
  (length dirs <= length X)%nat -> (length dirs <= length ths)%nat ->
  _create_rule_filter_name str_V X ths dirs =
  Ok (spec_rule_name str_V X ths dirs).
Proof.
  intros Hne Hdirs HX Hths. unfold _create_rule_filter_name, spec_rule_name.
  rewrite (map_r_pointwise _ (conjunct_text str_V X ths dirs)).
  - simpl rbind. destruct dirs as [|d dirs]; [congruence|].
    simpl length. rewrite <- cons_seq. simpl map. unfold reduce.
    rewrite reduce_combine_join. reflexivity.
  - apply Forall_forall. intros i Hi. apply elem_of_seq in Hi.
    apply single_filter_name_spec; auto; lia.
Qed.

(** C3: for a path with a direction sequence, thresholds and selected
    columns of a dataset with [n] rows, [_create_rule_filter] returns a
    boolean vector of length [n] whose value at every row [r] is the
    conjunction, over the positions [i] of the direction sequence, of
    [c_i[r] <= t_i] when [d_i] is left and [c_i[r] > t_i] when it is right;
    the vector is the row-wise AND of the per-conjunct comparisons. *)
Theorem rule_filter_is_rowwise_conjunction (X : DataFrame V) (ths : list V)
  (dirs : list string) (n : nat) :
  dirs <> [] -> Forall valid_direction dirs ->
  (length dirs <= length X)%nat -> (length dirs <= length ths)%nat ->
  same_rows n X ->
  exists v,
    _create_rule_filter le_V gt_V series_and_none X ths dirs
      = Ok (PySeries v) /\
    length v = n /\
    forall r, (r < n)%nat ->
      v !! r =
      Some (forallb (fun i => conjunct_holds le_V gt_V X ths dirs i r)
                    (seq 0 (length dirs))) /\
      forall i c t d x,
        X !! i = Some c -> ths !! i = Some t -> dirs !! i = Some d ->
        snd c !! r = Some x ->
        conjunct_holds le_V gt_V X ths dirs i r =
        if String.eqb d "left" then le_V x t else gt_V x t.
Proof.
  intros Hne Hdirs HX Hths Hrows.
  exists (spec_rule_filter le_V gt_V X ths dirs n). split; [|split].
  - apply create_rule_filter_spec; auto.
  - unfold spec_rule_filter. rewrite length_map, length_seq. reflexivity.
  - intros r Hr. split.
    + unfold spec_rule_filter. rewrite lookup_map, lookup_seq_lt by lia.
      reflexivity.
    + intros i c t d x Hc Ht Hd Hx. unfold conjunct_holds.
      rewrite Hc, Ht, Hd, Hx. reflexivity.
Qed.

(** C4: the name of a path is the join, with the separator [" & "] and in
    the order of the positions [0 .. len(directions)-1] (root first), of
    the texts ["{column_name_i} {op_i} {threshold_i}"], where [op_i] is
    ["<="] for left and [">"] for right. *)
Theorem rule_name_is_join_in_path_order (X : DataFrame V) (ths : list V)
  (dirs : list string) :
  dirs <> [] -> Forall valid_direction dirs ->
  (length dirs <= length X)%nat -> (length dirs <= length ths)%nat ->
  exists texts,
    _create_rule_filter_name str_V X ths dirs
      = Ok (String.concat " & " texts) /\
    length texts = length dirs /\
    forall i c t d,
      X !! i = Some c -> ths !! i = Some t -> dirs !! i = Some d ->
      texts !! i =
      Some (fst c +:+ " " +:+
            (if String.eqb d "left" then "<=" else ">") +:+ " " +:+ str_V t)
      /\ (d = "left" \/ d = "right").
Proof.
  intros Hne Hdirs HX Hths.
  exists (map (conjunct_text str_V X ths dirs) (seq 0 (length dirs))).
  split; [|split].
  - apply create_rule_filter_name_spec; auto.
  - rewrite length_map, length_seq. reflexivity.
  - intros i c t d Hc Ht Hd.
    assert (Hv : valid_direction d) by (eapply Forall_lookup_1; eauto).
    split; [|exact Hv].
    rewrite lookup_map, lookup_seq_lt by (eapply lookup_lt_Some; eauto).
    simpl. unfold conjunct_text. rewrite Hc, Ht, Hd. reflexivity.
Qed.

(** ** Ancestor chains *)

Lemma chain_length (tree : Tree V) (p : list Z) (d : list string) :
  ancestor_chain tree p d -> length p = S (length d).
Proof.
  induction 1 as [|p a c d _ IH _ _|p a c d _ IH _ _]; [reflexivity| |];
    rewrite (length_app (p ++ [a])), (length_app d), IH; simpl; lia.
Qed.

Lemma chain_valid (tree : Tree V) (p : list Z) (d : list string) :
  ancestor_chain tree p d -> Forall valid_direction d.
Proof.
  induction 1 as [|p a c d _ IH _ _|p a c d _ IH _ _]; [constructor| |];
    (apply Forall_app; split; [exact IH|]);
    (apply Forall_cons; split; [|constructor]).
  - left. reflexivity.
  - right. reflexivity.
Qed.

Lemma chain_nonneg (tree : Tree V) (p : list Z) (d : list string) :
  ancestor_chain tree p d -> Forall (fun i => 0 <= i) p.
Proof.
  induction 1 as [|p a c d _ IH _ Hc|p a c d _ IH _ Hc];
    [apply Forall_cons; split; [lia | constructor]| |];
    (apply Forall_app; split; [exact IH|]);
    (apply Forall_cons; split; [exact Hc | constructor]).
Qed.

(** ** The traversal *)

Section TraversalProperties.

Variable X : DataFrame V.
Variable tree : Tree V.

Local Abbreviation traverse :=
  (_traverse le_V gt_V str_V series_and_none X tree).
Local Abbreviation rule_of :=
  (rule_for_path le_V gt_V str_V series_and_none X tree).

Local Abbreviation rule_of_chain :=
  (rule_of_chain le_V gt_V str_V series_and_none X tree).
Local Abbreviation frame := (frame le_V gt_V str_V series_and_none X tree).
Local Abbreviation visited := (visited le_V gt_V str_V series_and_none X tree).

Lemma frame_refl (s : store) : frame s s.
Proof.
  repeat split; [exists [] | exists [] | auto]; rewrite app_nil_r; reflexivity.
Qed.

Lemma frame_trans (s1 s2 s3 : store) :
  frame s1 s2 -> frame s2 s3 -> frame s1 s3.
Proof.
  intros ([fi1 Hi1] & [fs1 Hs1] & Hr1) ([fi2 Hi2] & [fs2 Hs2] & Hr2).
  repeat split.
  - exists (fi1 ++ fi2). rewrite Hi2, Hi1, app_assoc. reflexivity.
  - exists (fs1 ++ fs2). rewrite Hs2, Hs1, app_assoc. reflexivity.
  - intros k v H. destruct (Hr2 _ _ H) as [H'|H']; auto.
Qed.

(** One branch of [_traverse] (lines 57 to 61, and 63 to 67), for any
    callee that behaves as [_traverse] is shown to. *)
Lemma branch_frame (rec : Z -> nat -> nat -> store -> result store)
  (child : Z) (dir : string) (rp dp : nat) (s s' : store)
  (path : list Z) (d : list string) :
  (forall c rp dp s s' p d,
     rec c rp dp s = Ok s' ->
     int_lists s !! rp = Some p -> str_lists s !! dp = Some d ->
     ancestor_chain tree (p ++ [c]) d -> visited rp (p ++ [c]) s s') ->
  (if 0 <=? child then
     let '(rule_path_child, s) := ints_copy rp s in
     let '(tmp, s) := strs_concat dp [dir] s in
     let '(direction_path_child, s) := strs_copy tmp s in
     rec child rule_path_child direction_path_child s
   else Ok s) = Ok s' ->
  int_lists s !! rp = Some path -> str_lists s !! dp = Some d ->
  (0 <= child -> ancestor_chain tree (path ++ [child]) (d ++ [dir])) ->
  frame s s'.
Proof.
  intros Hrec H Hrp Hdp Hchain.
  destruct (Z.leb_spec 0 child) as [Hc|Hc].
  2:{ injection H as <-. apply frame_refl. }
  unfold ints_copy, strs_concat, strs_copy, alloc_ints, alloc_strs,
    read_ints, read_strs in H.
  cbn [int_lists str_lists rules_dict] in H.
  rewrite Hrp, Hdp, lookup_at_end in H. simpl default in H.
  apply Hrec with (p := path) (d := d ++ [dir]) in H.
  - destruct H as ([fi Hi] & [fs Hs] & Hr).
    cbn [int_lists str_lists rules_dict] in *.
    rewrite insert_at_end in Hi.
    repeat split; [| |exact Hr].
    + exists ([path ++ [child]] ++ fi). rewrite Hi, <- app_assoc. reflexivity.
    + eexists. rewrite Hs, <- !app_assoc. reflexivity.
  - apply lookup_at_end.
  - cbn [str_lists]. apply lookup_at_end.
  - auto.
Qed.

Lemma frame_lookup_ints (s s' : store) (r : nat) (l : list Z) :
  frame s s' -> int_lists s !! r = Some l -> int_lists s' !! r = Some l.
Proof.
  intros ([fi ->] & _) H. rewrite lookup_app_l; [exact H|].
  eapply lookup_lt_Some; eauto.
Qed.

Lemma frame_lookup_strs (s s' : store) (r : nat) (l : list string) :
  frame s s' -> str_lists s !! r = Some l -> str_lists s' !! r = Some l.
Proof.
  intros (_ & [fs ->] & _) H. rewrite lookup_app_l; [exact H|].
  eapply lookup_lt_Some; eauto.
Qed.

(** One step of the recursion, as the source has it. *)
Lemma traverse_unfold (fuel : nat) (parent_index : Z)
  (rule_path direction_path : nat) (s : store) :
  traverse (S fuel) parent_index rule_path direction_path s =
  (left_child_index <- py_getitem (children_left tree) parent_index ;;
   right_child_index <- py_getitem (children_right tree) parent_index ;;
   let s := list_append rule_path parent_index s in
   s <- (if (2 <? length (read_ints rule_path s))%nat then
           rule <- rule_of (read_ints rule_path s)
                           (read_strs direction_path s) ;;
           Ok (rules_store (fst rule) (snd rule) s)
         else Ok s) ;;
   s <- (if 0 <=? left_child_index then
           let '(rule_path_left, s) := ints_copy rule_path s in
           let '(tmp, s) := strs_concat direction_path ["left"] s in
           let '(direction_path_left, s) := strs_copy tmp s in
           traverse fuel left_child_index
                    rule_path_left direction_path_left s
         else Ok s) ;;
   if 0 <=? right_child_index then
     let '(rule_path_right, s) := ints_copy rule_path s in
     let '(tmp, s) := strs_concat direction_path ["right"] s in
     let '(direction_path_right, s) := strs_copy tmp s in
     traverse fuel right_child_index
              rule_path_right direction_path_right s
   else Ok s).
Proof. reflexivity. Qed.

(** The rule, if any, that the visit of a node adds (lines 39 to 51). *)
Lemma materialize_frame (rp dp : nat) (s1 s2 : store) (path : list Z)
  (d : list string) :
  (if (2 <? length (read_ints rp s1))%nat then
     rule <- rule_of (read_ints rp s1) (read_strs dp s1) ;;
     Ok (rules_store (fst rule) (snd rule) s1)
   else Ok s1) = Ok s2 ->
  int_lists s1 !! rp = Some path -> str_lists s1 !! dp = Some d ->
  ancestor_chain tree path d ->
  frame s1 s2.
Proof.
  intros H Hrp Hdp Hchain.
  rewrite (read_ints_lookup _ _ _ Hrp), (read_strs_lookup _ _ _ Hdp) in H.
  destruct (Nat.ltb_spec 2 (length path)) as [Hlen|Hlen].
  2:{ injection H as <-. apply frame_refl. }
  inv_bind H. destruct a as [k0 v0]. injection H as <-.
  repeat split; cbn [int_lists str_lists rules_dict rules_store fst snd].
  - exists []. rewrite app_nil_r. reflexivity.
  - exists []. rewrite app_nil_r. reflexivity.
  - intros k v Hin. apply In_dict_set in Hin. destruct Hin as [Heq|Hin].
    + injection Heq as -> ->. right. exists path, d. auto.
    + left. exact Hin.
Qed.

(** The invariant of [_traverse]. *)
Lemma traverse_visited (fuel : nat) :
  forall (node : Z) (rp dp : nat) (s s' : store) (p : list Z)
         (d : list string),
    traverse fuel node rp dp s = Ok s' ->
    int_lists s !! rp = Some p -> str_lists s !! dp = Some d ->
    ancestor_chain tree (p ++ [node]) d ->
    visited rp (p ++ [node]) s s'.
Proof.
  induction fuel as [|fuel IH]; intros node rp dp s s' p d H Hrp Hdp Hchain;
    [discriminate|].
  rewrite traverse_unfold in H.
  apply rbind_ok in H. destruct H as (lc & Hlc & H).
  apply rbind_ok in H. destruct H as (rc & Hrc & H).
  cbv zeta in H.
  apply rbind_ok in H. destruct H as (s2 & H12 & H).
  apply rbind_ok in H. destruct H as (s3 & H23 & H34).
  set (s1 := list_append rp node s) in *.
  assert (Hrp1 : int_lists s1 !! rp = Some (p ++ [node])).
  { unfold s1, list_append. cbn [int_lists].
    rewrite (read_ints_lookup _ _ _ Hrp).
    apply list_lookup_insert_eq. eapply lookup_lt_Some; eauto. }
  assert (Hdp1 : str_lists s1 !! dp = Some d) by exact Hdp.
  assert (F12 : frame s1 s2) by (eapply materialize_frame; eauto).
  assert (F23 : frame s2 s3).
  { eapply (branch_frame (traverse fuel)); [exact IH | exact H23 | | |].
    - eapply frame_lookup_ints; eauto.
    - eapply frame_lookup_strs; eauto.
    - intros Hc. eapply chain_left; eauto. }
  assert (F13 : frame s1 s3) by (eapply frame_trans; eauto).
  assert (F34 : frame s3 s').
  { eapply (branch_frame (traverse fuel)); [exact IH | exact H34 | | |].
    - eapply frame_lookup_ints; eauto.
    - eapply frame_lookup_strs; eauto.
    - intros Hc. eapply chain_right; eauto. }
  destruct (frame_trans _ _ _ F13 F34) as ([fi Hi] & [fs Hs] & Hr).
  repeat split; [exists fi | exists fs | exact Hr].
  - rewrite Hi. unfold s1, list_append. cbn [int_lists].
    rewrite (read_ints_lookup _ _ _ Hrp). reflexivity.
  - exact Hs.
Qed.

End TraversalProperties.

Lemma iloc_cols_rows (X : DataFrame V) (fs : list Z) (Xr : DataFrame V)
  (n : nat) :
  same_rows n X -> iloc_cols X fs = Ok Xr -> same_rows n Xr.
Proof.
  intros Hrows. apply map_r_Forall. intros i c Hc.
  apply py_getitem_elem in Hc. unfold same_rows in Hrows.
  rewrite Forall_forall in Hrows. auto.
Qed.

(** ** The RuleSet *)

Section RuleSetProperties.

Variable X : DataFrame V.
Variable tree : Tree V.

Local Abbreviation traverse :=
  (_traverse le_V gt_V str_V series_and_none X tree).
Local Abbreviation rule_of :=
  (rule_for_path le_V gt_V str_V series_and_none X tree).
Local Abbreviation rule_of_chain :=
  (rule_of_chain le_V gt_V str_V series_and_none X tree).
Local Abbreviation create :=
  (create_tree_rule_filters le_V gt_V str_V series_and_none X tree).

(** What [rule_for_path] selected when it returns a rule. *)
Lemma rule_for_path_ok (p : list Z) (d : list string) (k : string)
  (v : pyval) :
  rule_of p d = Ok (k, v) ->
  exists fs Xr ths,
    py_take (feature tree) p = Ok fs /\ iloc_cols X fs = Ok Xr /\
    py_take (threshold tree) p = Ok ths /\
    length Xr = length p /\ length ths = length p /\
    _create_rule_filter le_V gt_V series_and_none Xr ths d = Ok v /\
    _create_rule_filter_name str_V Xr ths d = Ok k.
Proof.
  unfold rule_for_path. intros H.
  apply rbind_ok in H. destruct H as (fs & Hfs & H).
  apply rbind_ok in H. destruct H as (Xr & HXr & H).
  apply rbind_ok in H. destruct H as (ths & Hths & H).
  apply rbind_ok in H. destruct H as (v' & Hv & H).
  apply rbind_ok in H. destruct H as (k' & Hk & H).
  injection H as <- <-.
  exists fs, Xr, ths. repeat split; auto.
  - apply map_r_length in HXr, Hfs. congruence.
  - apply map_r_length in Hths. exact Hths.
Qed.

(** The rule of a chain is the rule that the specification describes. *)
Lemma rule_of_chain_spec (n : nat) (p : list Z) (d : list string)
  (k : string) (v : pyval) :
  same_rows n X -> ancestor_chain tree p d -> (2 < length p)%nat ->
  rule_of p d = Ok (k, v) ->
  exists fs Xr ths,
    py_take (feature tree) p = Ok fs /\ iloc_cols X fs = Ok Xr /\
    py_take (threshold tree) p = Ok ths /\
    k = spec_rule_name str_V Xr ths d /\
    v = PySeries (spec_rule_filter le_V gt_V Xr ths d n).
Proof.
  intros Hrows Hchain Hlen H.
  destruct (rule_for_path_ok _ _ _ _ H)
    as (fs & Xr & ths & Hfs & HXr & Hths & HlX & Hlt & Hv & Hk).
  pose proof (chain_length _ _ _ Hchain) as Hl.
  pose proof (chain_valid _ _ _ Hchain) as Hvalid.
  assert (Hne : d <> []) by (destruct d; [simpl in Hl; lia | discriminate]).
  exists fs, Xr, ths. repeat split; auto.
  - rewrite create_rule_filter_name_spec in Hk by (auto; lia). congruence.
  - rewrite (create_rule_filter_spec Xr ths d n) in Hv
      by (eauto using iloc_cols_rows; lia).
    congruence.
Qed.

(** Every entry of the RuleSet is the rule of a chain of ancestors. *)
Lemma rules_from_chains (fuel : nat) (rules : dict pyval) (k : string)
  (v : pyval) :
  create fuel = Ok rules -> In (k, v) rules -> rule_of_chain k v.
Proof.
  unfold create_tree_rule_filters. cbn [alloc_ints alloc_strs int_lists
    str_lists rules_dict length app].
  intros H Hin. apply rbind_ok in H. destruct H as (s' & H & Hs').
  injection Hs' as <-.
  apply traverse_visited with (p := []) (d := []) in H;
    [|reflexivity|reflexivity|apply chain_root].
  destruct H as (_ & _ & Hr). destruct (Hr _ _ Hin) as [[]|Hc]. exact Hc.
Qed.

Lemma visited_lookup_self (rp : nat) (path : list Z) (s s' : store) :
  visited le_V gt_V str_V series_and_none X tree rp path s s' ->
  (rp < length (int_lists s))%nat ->
  int_lists s' !! rp = Some path.
Proof.
  intros ([fi ->] & _) Hlt.
  rewrite lookup_app_l by (rewrite length_insert; exact Hlt).
  apply list_lookup_insert_eq. exact Hlt.
Qed.

Lemma visited_lookup_other (rp : nat) (path : list Z) (s s' : store)
  (r : nat) (l : list Z) :
  visited le_V gt_V str_V series_and_none X tree rp path s s' ->
  r <> rp -> int_lists s !! r = Some l -> int_lists s' !! r = Some l.
Proof.
  intros ([fi ->] & _) Hne Hl.
  rewrite lookup_app_l
    by (rewrite length_insert; eapply lookup_lt_Some; eauto).
  rewrite list_lookup_insert_ne by auto. exact Hl.
Qed.

Lemma visited_lookup_strs (rp : nat) (path : list Z) (s s' : store)
  (r : nat) (l : list string) :
  visited le_V gt_V str_V series_and_none X tree rp path s s' ->
  str_lists s !! r = Some l -> str_lists s' !! r = Some l.
Proof.
  intros (_ & [fs ->] & _) Hl.
  rewrite lookup_app_l by (eapply lookup_lt_Some; eauto). exact Hl.
Qed.

(** C5: every entry of the RuleSet belongs to a chain of ancestors with
    node-index path [p] and directions [d], [len(d) = len(p) - 1]; its name
    is the join of [len(d)] conjunct texts and its vector is the AND of the
    [len(d)] conjuncts at the positions [0 .. len(d)-1], the split of the
    last node of [p] not being one of them. *)
Theorem rule_conjunct_count (n fuel : nat) (rules : dict pyval)
  (k : string) (v : pyval) :
  same_rows n X -> create fuel = Ok rules -> In (k, v) rules ->
  exists p d fs Xr ths texts,
    ancestor_chain tree p d /\ length d = (length p - 1)%nat /\
    py_take (feature tree) p = Ok fs /\ iloc_cols X fs = Ok Xr /\
    py_take (threshold tree) p = Ok ths /\
    texts = map (conjunct_text str_V Xr ths d) (seq 0 (length d)) /\
    length texts = length d /\
    k = String.concat " & " texts /\
    v = PySeries
          (map (fun r =>
                  forallb (fun i => conjunct_holds le_V gt_V Xr ths d i r)
                          (seq 0 (length d)))
               (seq 0 n)).
Proof.
  intros Hrows H Hin. destruct (rules_from_chains _ _ _ _ H Hin)
    as (p & d & Hchain & Hlen & Hrule).
  destruct (rule_of_chain_spec n _ _ _ _ Hrows Hchain Hlen Hrule)
    as (fs & Xr & ths & Hfs & HXr & Hths & -> & ->).
  exists p, d, fs, Xr, ths, (map (conjunct_text str_V Xr ths d)
                                 (seq 0 (length d))).
  repeat split; auto.
  - rewrite (chain_length _ _ _ Hchain). lia.
  - rewrite length_map, length_seq. reflexivity.
Qed.

(** C6: a call of [_traverse] on the node of a chain changes no list
    object of its caller except that it appends its node to the [rule_path]
    it was given, so what one branch does is invisible in the other;
    and every rule of the RuleSet is the rule of a chain of ancestors
    read off [children_left] and [children_right], its name being the text
    of the conjuncts of that chain. *)
Theorem sibling_paths_isolated :
  (forall fuel node rp dp s s' p d,
     traverse fuel node rp dp s = Ok s' ->
     int_lists s !! rp = Some p -> str_lists s !! dp = Some d ->
     ancestor_chain tree (p ++ [node]) d ->
     int_lists s' !! rp = Some (p ++ [node]) /\
     (forall r l, r <> rp -> int_lists s !! r = Some l ->
                  int_lists s' !! r = Some l) /\
     (forall r l, str_lists s !! r = Some l -> str_lists s' !! r = Some l))
  /\
  (forall fuel rules k v,
     create fuel = Ok rules -> In (k, v) rules ->
     exists p d fs Xr ths,
       ancestor_chain tree p d /\ rule_of p d = Ok (k, v) /\
       py_take (feature tree) p = Ok fs /\ iloc_cols X fs = Ok Xr /\
       py_take (threshold tree) p = Ok ths /\
       k = spec_rule_name str_V Xr ths d).
Proof.
  split.
  - intros fuel node rp dp s s' p d H Hrp Hdp Hchain.
    pose proof (traverse_visited X tree _ _ _ _ _ _ _ _ H Hrp Hdp Hchain)
      as Hv.
    split; [|split].
    + eapply visited_lookup_self; eauto. eapply lookup_lt_Some; eauto.
    + intros r l. eapply visited_lookup_other; eauto.
    + intros r l. eapply visited_lookup_strs; eauto.
  - intros fuel rules k v H Hin. destruct (rules_from_chains _ _ _ _ H Hin)
      as (p & d & Hchain & Hlen & Hrule).
    destruct (rule_for_path_ok _ _ _ _ Hrule)
      as (fs & Xr & ths & Hfs & HXr & Hths & HlX & Hlt & Hv & Hk).
    exists p, d, fs, Xr, ths. repeat split; auto.
    pose proof (chain_length _ _ _ Hchain) as Hl.
    rewrite create_rule_filter_name_spec in Hk.
    + congruence.
    + destruct d; [simpl in Hl; lia | discriminate].
    + eapply chain_valid; eauto.
    + lia.
    + lia.
Qed.

End RuleSetProperties.

(** ** Shallow trees *)

Section Shallow.

Variable X : DataFrame V.
Variable tree : Tree V.

Local Abbreviation traverse :=
  (_traverse le_V gt_V str_V series_and_none X tree).
Local Abbreviation create :=
  (create_tree_rule_filters le_V gt_V str_V series_and_none X tree).

Lemma depth_le_unfold (d : nat) (node : Z) :
  depth_le tree d node =
  match py_getitem (children_left tree) node,
        py_getitem (children_right tree) node with
  | Ok l, Ok r =>
      (if 0 <=? l then
         match d with O => false | S d' => depth_le tree d' l end
       else true) &&
      (if 0 <=? r then
         match d with O => false | S d' => depth_le tree d' r end
       else true)
  | _, _ => false
  end.
Proof. destruct d; reflexivity. Qed.

Lemma branch_quiet (rec : Z -> nat -> nat -> store -> result store)
  (child : Z) (dir : string) (rp dp : nat) (s : store) (path : list Z) :
  (0 <= child ->
   forall rp dp s,
     int_lists s !! rp = Some path ->
     exists s', rec child rp dp s = Ok s' /\
                quiet rp (path ++ [child]) s s') ->
  int_lists s !! rp = Some path ->
  exists s',
    (if 0 <=? child then
       let '(rule_path_child, s) := ints_copy rp s in
       let '(tmp, s) := strs_concat dp [dir] s in
       let '(direction_path_child, s) := strs_copy tmp s in
       rec child rule_path_child direction_path_child s
     else Ok s) = Ok s' /\
    rules_dict s' = rules_dict s /\
    exists fi, int_lists s' = int_lists s ++ fi.
Proof.
  intros Hrec Hrp. destruct (Z.leb_spec 0 child) as [Hc|Hc].
  2:{ exists s. repeat split. exists []. rewrite app_nil_r. reflexivity. }
  unfold ints_copy, strs_concat, strs_copy, alloc_ints, alloc_strs, read_ints.
  cbn [int_lists str_lists rules_dict]. rewrite Hrp. simpl default.
  edestruct (Hrec Hc) as (s' & -> & Hd & [fi Hi]).
  { cbn [int_lists]. apply lookup_at_end. }
  cbn [int_lists rules_dict] in *. rewrite insert_at_end in Hi.
  exists s'. repeat split; [exact Hd|].
  exists ([path ++ [child]] ++ fi). rewrite Hi, <- app_assoc. reflexivity.
Qed.

(** Below a node of depth [d] whose path, itself included, has at most
    [2 - d] entries, no rule is added and no exception is raised. *)
Lemma traverse_shallow (d : nat) :
  forall (fuel : nat) (node : Z) (rp dp : nat) (s : store) (p : list Z),
    depth_le tree d node = true -> (d < fuel)%nat ->
    int_lists s !! rp = Some p -> (length p + d < 2)%nat ->
    exists s', traverse fuel node rp dp s = Ok s' /\
               quiet rp (p ++ [node]) s s'.
Proof.
  induction d as [d IH] using lt_wf_ind.
  intros fuel node rp dp s p Hd Hfuel Hrp Hlen.
  destruct fuel as [|fuel]; [lia|].
  rewrite traverse_unfold. rewrite depth_le_unfold in Hd.
  destruct (py_getitem (children_left tree) node) as [lc|]; [|discriminate].
  destruct (py_getitem (children_right tree) node) as [rc|]; [|discriminate].
  apply andb_true_iff in Hd. destruct Hd as [Hl Hr].
  rewrite !rbind_ret. cbv beta zeta.
  set (s1 := list_append rp node s).
  assert (Hrp1 : int_lists s1 !! rp = Some (p ++ [node])).
  { unfold s1, list_append. cbn [int_lists].
    rewrite (read_ints_lookup _ _ _ Hrp).
    apply list_lookup_insert_eq. eapply lookup_lt_Some; eauto. }
  rewrite (read_ints_lookup _ _ _ Hrp1).
  destruct (Nat.ltb_spec 2 (length (p ++ [node]))) as [Hgt|_].
  { rewrite length_app in Hgt. simpl in Hgt. lia. }
  rewrite rbind_ret. cbv beta.
  assert (Hchild : forall c,
    (if 0 <=? c then
       match d with O => false | S d' => depth_le tree d' c end
     else true) = true ->
    0 <= c ->
    forall rp dp s,
      int_lists s !! rp = Some (p ++ [node]) ->
      exists s', traverse fuel c rp dp s = Ok s' /\
                 quiet rp ((p ++ [node]) ++ [c]) s s').
  { intros c Hc Hc0 rp' dp' s' Hrp'.
    destruct (Z.leb_spec 0 c); [|lia].
    destruct d as [|d']; [discriminate|].
    apply (IH d'); auto; try lia.
    rewrite length_app. simpl. lia. }
  destruct (branch_quiet (traverse fuel) lc "left" rp dp s1 (p ++ [node])
              (Hchild lc Hl) Hrp1) as (s3 & -> & Hd3 & [fi3 Hi3]).
  rewrite rbind_ret. cbv beta.
  assert (Hrp3 : int_lists s3 !! rp = Some (p ++ [node])).
  { rewrite Hi3, lookup_app_l; [exact Hrp1 | eapply lookup_lt_Some; eauto]. }
  destruct (branch_quiet (traverse fuel) rc "right" rp dp s3 (p ++ [node])
              (Hchild rc Hr) Hrp3) as (s4 & -> & Hd4 & [fi4 Hi4]).
  exists s4. split; [reflexivity|]. split.
  - rewrite Hd4, Hd3. reflexivity.
  - exists (fi3 ++ fi4). rewrite Hi4, Hi3, app_assoc. unfold s1, list_append.
    cbn [int_lists]. rewrite (read_ints_lookup _ _ _ Hrp). reflexivity.
Qed.

Lemma is_leaf_depth (node : Z) :
  is_leaf tree node = true -> depth_le tree 0 node = true.
Proof.
  unfold is_leaf. rewrite depth_le_unfold.
  destruct (py_getitem (children_left tree) node) as [l|]; [|discriminate].
  destruct (py_getitem (children_right tree) node) as [r|]; [|discriminate].
  intros H. apply andb_true_iff in H. destruct H as [Hl Hr].
  apply Z.ltb_lt in Hl, Hr.
  destruct (Z.leb_spec 0 l); [lia|]. destruct (Z.leb_spec 0 r); [lia|].
  reflexivity.
Qed.

(** C2 (amended): for every tree in which every root-to-node path has at
    most one split, that is, every child of the root is a leaf and no
    node-index path has more than two entries, [create_tree_rule_filters]
    returns the empty RuleSet. *)
Theorem shallow_tree_has_no_rules (fuel : nat) :
  depth_le tree 1 0 = true -> (2 <= fuel)%nat -> create fuel = Ok [].
Proof.
  intros Hd Hfuel. unfold create_tree_rule_filters.
  cbn [alloc_ints alloc_strs int_lists str_lists rules_dict length app].
  edestruct (traverse_shallow 1 fuel 0 0%nat 0%nat) as (s' & -> & Hr & _);
    [exact Hd | lia | reflexivity | simpl; lia |].
  rewrite rbind_ret, Hr. reflexivity.
Qed.

(** A root that is a leaf: nothing to traverse. *)
Lemma create_leaf_root (fuel : nat) :
  is_leaf tree 0 = true -> (1 <= fuel)%nat -> create fuel = Ok [].
Proof.
  intros Hleaf Hfuel. unfold create_tree_rule_filters.
  cbn [alloc_ints alloc_strs int_lists str_lists rules_dict length app].
  edestruct (traverse_shallow 0 fuel 0 0%nat 0%nat) as (s' & -> & Hr & _);
    [apply is_leaf_depth; exact Hleaf | lia | reflexivity | simpl; lia |].
  rewrite rbind_ret, Hr. reflexivity.
Qed.

End Shallow.

(** ** Paths that violate the contract *)

Section BadPaths.

Variable X : DataFrame V.
Variable tree : Tree V.

Local Abbreviation traverse :=
  (_traverse le_V gt_V str_V series_and_none X tree).
Local Abbreviation rule_of :=
  (rule_for_path le_V gt_V str_V series_and_none X tree).

Lemma single_filter_name_err (Xr : DataFrame V) (ths : list V)
  (d : list string) (i : nat) (dir : string) :
  d !! i = Some dir -> ~ valid_direction dir ->
  exists e, _create_single_filter_name str_V Xr ths d i = Err e.
Proof.
  intros Hd Hbad. unfold _create_single_filter_name, column_name.
  rewrite !py_getitem_nat, Hd.
  destruct (Xr !! i); simpl; [|eauto].
  destruct (ths !! i); simpl; [|eauto].
  destruct (String.eqb_spec dir "left") as [->|_].
  { exfalso. apply Hbad. left. reflexivity. }
  destruct (String.eqb_spec dir "right") as [->|_].
  { exfalso. apply Hbad. right. reflexivity. }
  simpl. eauto.
Qed.

Lemma create_rule_filter_name_err (Xr : DataFrame V) (ths : list V)
  (d : list string) (dir : string) :
  In dir d -> ~ valid_direction dir ->
  exists e, _create_rule_filter_name str_V Xr ths d = Err e.
Proof.
  intros Hin Hbad. apply list_elem_of_In, list_elem_of_lookup in Hin.
  destruct Hin as [i Hi]. unfold _create_rule_filter_name.
  destruct (map_r_err (_create_single_filter_name str_V Xr ths d)
              (seq 0 (length d)) i) as [e ->].
  - apply in_seq. apply lookup_lt_Some in Hi. lia.
  - eapply single_filter_name_err; eauto.
  - simpl. eauto.
Qed.

Lemma iloc_cols_err (fs : list Z) (f : Z) :
  In f fs ->
  f < - Z.of_nat (length X) \/ Z.of_nat (length X) <= f ->
  exists e, iloc_cols X fs = Err e.
Proof.
  intros Hin Hrange. apply (map_r_err _ _ f Hin).
  exists IndexError. apply py_getitem_range. exact Hrange.
Qed.

(** A path that selects a column outside [-ncols, ncols), or that has a
    direction other than left and right, has no rule. *)
Lemma rule_for_path_err (p : list Z) (d : list string) :
  (exists i f, In i p /\ py_getitem (feature tree) i = Ok f /\
               (f < - Z.of_nat (length X) \/ Z.of_nat (length X) <= f)) \/
  (exists dir, In dir d /\ ~ valid_direction dir) ->
  exists e, rule_of p d = Err e.
Proof.
  intros Hbad. unfold rule_for_path.
  destruct (py_take (feature tree) p) as [fs|e] eqn:Hfs; simpl; [|eauto].
  destruct (iloc_cols X fs) as [Xr|e] eqn:HXr; simpl; [|eauto].
  destruct (py_take (threshold tree) p) as [ths|e]; simpl; [|eauto].
  destruct (_create_rule_filter _ _ _ _ _ _) as [v|e]; simpl; [|eauto].
  destruct Hbad as [(i & f & Hi & Hf & Hrange)|(dir & Hdir & Hbad)].
  - destruct (map_r_In _ _ _ _ Hfs Hi) as (f' & Hf' & Hin).
    assert (f' = f) by congruence. subst f'.
    destruct (iloc_cols_err fs f Hin Hrange) as [e He]. congruence.
  - destruct (create_rule_filter_name_err Xr ths d dir Hdir Hbad) as [e ->].
    simpl. eauto.
Qed.

(** C8 (amended): when the node-index path of a visited node has more than
    two entries and selects a column position outside [-ncols, ncols)
    (positions from [-ncols] to [-1] count from the last column and are
    accepted), or when its direction path holds a value other than left and
    right, the path has no rule and the call of [_traverse] raises: nothing
    is inserted. *)
Theorem bad_path_fails_loudly (fuel : nat) (node : Z) (rp dp : nat)
  (s : store) (p : list Z) (d : list string) :
  int_lists s !! rp = Some p -> str_lists s !! dp = Some d ->
  (2 < length (p ++ [node]))%nat ->
  (exists i f, In i (p ++ [node]) /\ py_getitem (feature tree) i = Ok f /\
               (f < - Z.of_nat (length X) \/ Z.of_nat (length X) <= f)) \/
  (exists dir, In dir d /\ ~ valid_direction dir) ->
  (exists e, rule_of (p ++ [node]) d = Err e) /\
  (exists e, traverse fuel node rp dp s = Err e).
Proof.
  intros Hrp Hdp Hlen Hbad.
  destruct (rule_for_path_err _ _ Hbad) as [e He].
  split; [eauto|].
  destruct fuel as [|fuel]; [simpl; eauto|].
  rewrite traverse_unfold.
  destruct (py_getitem (children_left tree) node); simpl rbind; [|eauto].
  destruct (py_getitem (children_right tree) node); simpl rbind; [|eauto].
  assert (Hrp1 : int_lists (list_append rp node s) !! rp
                 = Some (p ++ [node])).
  { unfold list_append. cbn [int_lists].
    rewrite (read_ints_lookup _ _ _ Hrp).
    apply list_lookup_insert_eq. eapply lookup_lt_Some; eauto. }
  assert (Hdp1 : str_lists (list_append rp node s) !! dp = Some d)
    by exact Hdp.
  rewrite (read_ints_lookup _ _ _ Hrp1), (read_strs_lookup _ _ _ Hdp1).
  destruct (Nat.ltb_spec 2 (length (p ++ [node]))); [|lia].
  rewrite He. simpl. eauto.
Qed.

End BadPaths.

(** ** The split of the current node *)

Section CurrentNode.

Variable X : DataFrame V.

Local Abbreviation rule_of :=
  (rule_for_path le_V gt_V str_V series_and_none X).

(** Only the first [len(direction_path)] columns and thresholds are read. *)
Lemma create_rule_filter_ext (Xr Xr' : DataFrame V) (ths ths' : list V)
  (d : list string) :
  (forall i, (i < length d)%nat ->
             Xr !! i = Xr' !! i /\ ths !! i = ths' !! i) ->
  _create_rule_filter le_V gt_V series_and_none Xr ths d =
  _create_rule_filter le_V gt_V series_and_none Xr' ths' d.
Proof.
  intros H. unfold _create_rule_filter. apply fold_r_ext.
  intros b i Hi. apply in_seq in Hi. destruct (H i) as [HX Ht]; [lia|].
  unfold iloc_col. rewrite !py_getitem_nat, HX, Ht. reflexivity.
Qed.

Lemma create_rule_filter_name_ext (Xr Xr' : DataFrame V) (ths ths' : list V)
  (d : list string) :
  (forall i, (i < length d)%nat ->
             Xr !! i = Xr' !! i /\ ths !! i = ths' !! i) ->
  _create_rule_filter_name str_V Xr ths d =
  _create_rule_filter_name str_V Xr' ths' d.
Proof.
  intros H. unfold _create_rule_filter_name. f_equal. apply map_r_ext.
  intros i Hi. apply in_seq in Hi. destruct (H i) as [HX Ht]; [lia|].
  unfold _create_single_filter_name, column_name.
  rewrite !py_getitem_nat, HX, Ht. reflexivity.
Qed.

(** C10: the rule of a path does not depend on the split of its last
    node: when two trees differ at most in [feature[m]] and [threshold[m]]
    for the last node [m] of a materialised path, and [feature[m]] of the
    second tree is a valid column position too, the rule (name and vector)
    of the path in the first tree is its rule in the second. *)
Theorem rule_ignores_last_node_split (t t' : Tree V) (m : nat)
  (p : list Z) (d : list string) (k : string) (v : pyval) :
  differ_only_at m t t' ->
  ancestor_chain t (p ++ [Z.of_nat m]) d ->
  ~ In (Z.of_nat m) p ->
  (forall f', feature t' !! m = Some f' -> is_ok (py_getitem X f')) ->
  rule_of t (p ++ [Z.of_nat m]) d = Ok (k, v) ->
  rule_of t' (p ++ [Z.of_nat m]) d = Ok (k, v).
Proof.
  intros (Hcl & Hcr & Hlf & Hlt & Hdiff) Hchain Hm Hvalid H.
  destruct (rule_for_path_ok X t _ _ _ _ H)
    as (fs & Xr & ths & Hfs & HXr & Hths & HlX & Hlth & Hv & Hk).
  pose proof (chain_length _ _ _ Hchain) as Hlen.
  rewrite length_app in Hlen, HlX, Hlth. simpl in Hlen, HlX, Hlth.
  assert (Hp : Forall (fun i => 0 <= i) p).
  { apply chain_nonneg in Hchain. apply Forall_app in Hchain. tauto. }
  destruct (py_take_snoc _ _ _ _ Hfs) as (fsp & f & Hfsp & Hf & ->).
  destruct (py_take_snoc _ _ _ _ Hths) as (thp & th & Hthp & Hth & ->).
  unfold iloc_cols in HXr.
  assert (HXr' := HXr). unfold py_take in HXr'. rewrite map_r_app in HXr'.
  apply rbind_ok in HXr'. destruct HXr' as (Xp & HXp & HXr').
  apply rbind_ok in HXr'. destruct HXr' as (Xl & _ & HXr').
  injection HXr' as <-.
  assert (Hm_f : (m < length (feature t))%nat).
  { rewrite py_getitem_nat in Hf.
    destruct (feature t !! m) eqn:E; [|discriminate].
    eapply lookup_lt_Some; eauto. }
  assert (Hm_t : (m < length (threshold t))%nat).
  { rewrite py_getitem_nat in Hth.
    destruct (threshold t !! m) eqn:E; [|discriminate].
    eapply lookup_lt_Some; eauto. }
  destruct (lookup_lt_is_Some_2 (feature t') m) as [f' Hf']; [lia|].
  destruct (lookup_lt_is_Some_2 (threshold t') m) as [th' Hth']; [lia|].
  destruct (Hvalid f' Hf') as [c' Hc'].
  unfold rule_for_path.
  rewrite (py_take_snoc_ok (feature t') p (Z.of_nat m) fsp f').
  2:{ rewrite <- Hfsp. symmetry. apply (py_take_agree _ _ m); auto.
      intros i Hi. apply Hdiff. exact Hi. }
  2:{ rewrite py_getitem_nat, Hf'. reflexivity. }
  rewrite rbind_ret. unfold iloc_cols.
  rewrite (py_take_snoc_ok X fsp f' Xp c' HXp Hc'), rbind_ret.
  rewrite (py_take_snoc_ok (threshold t') p (Z.of_nat m) thp th').
  2:{ rewrite <- Hthp. symmetry. apply (py_take_agree _ _ m); auto.
      intros i Hi. apply Hdiff. exact Hi. }
  2:{ rewrite py_getitem_nat, Hth'. reflexivity. }
  rewrite rbind_ret.
  assert (HlXp : length Xp = length p).
  { apply map_r_length in HXp, Hfsp. congruence. }
  assert (Hlthp : length thp = length p).
  { apply map_r_length in Hthp. exact Hthp. }
  assert (Hext : forall i, (i < length d)%nat ->
            (Xp ++ [c']) !! i = (Xp ++ Xl) !! i /\
            (thp ++ [th']) !! i = (thp ++ [th]) !! i).
  { intros i Hi. rewrite !lookup_app_l by lia. auto. }
  rewrite (create_rule_filter_ext _ _ _ _ d Hext), Hv, rbind_ret.
  rewrite (create_rule_filter_name_ext _ _ _ _ d Hext), Hk, rbind_ret.
  reflexivity.
Qed.

End CurrentNode.

(** ** Every node below the root's children gets a rule *)

Section Completeness.

Variable X : DataFrame V.
Variable tree : Tree V.

Local Abbreviation traverse :=
  (_traverse le_V gt_V str_V series_and_none X tree).
Local Abbreviation rule_of :=
  (rule_for_path le_V gt_V str_V series_and_none X tree).
Local Abbreviation create :=
  (create_tree_rule_filters le_V gt_V str_V series_and_none X tree).
Local Abbreviation frame := (frame le_V gt_V str_V series_and_none X tree).

Lemma reaches_snoc (left : bool) (p0 : list Z) (d0 : list string)
  (p : list Z) (a c : Z) (d : list string) :
  reaches tree p0 d0 (p ++ [a]) d ->
  py_getitem (if left then children_left tree else children_right tree) a
    = Ok c ->
  0 <= c ->
  reaches tree p0 d0 ((p ++ [a]) ++ [c])
          (d ++ [if left then "left" else "right"]).
Proof.
  intros H. remember (p ++ [a]) as q eqn:Hq. revert Hq.
  induction H as [p1 d1|p1 a1 c1 d1 q e Hc1 Hc10 _ IH
                 |p1 a1 c1 d1 q e Hc1 Hc10 _ IH]; intros Hq Hc Hc0.
  - subst p1. destruct left.
    + eapply reaches_left; eauto. apply reaches_here.
    + eapply reaches_right; eauto. apply reaches_here.
  - eapply reaches_left; eauto.
  - eapply reaches_right; eauto.
Qed.

Lemma chain_reaches (q : list Z) (e : list string) :
  ancestor_chain tree q e -> reaches tree [0] [] q e.
Proof.
  induction 1 as [|p a c d _ IH Hc Hc0|p a c d _ IH Hc Hc0].
  - apply reaches_here.
  - apply (reaches_snoc true); auto.
  - apply (reaches_snoc false); auto.
Qed.

Lemma reaches_chain (p : list Z) (d : list string) (q : list Z)
  (e : list string) :
  reaches tree p d q e -> ancestor_chain tree p d -> ancestor_chain tree q e.
Proof.
  induction 1 as [p d|p a c d q e Hc Hc0 _ IH|p a c d q e Hc Hc0 _ IH];
    intros Hchain.
  - exact Hchain.
  - apply IH. eapply chain_left; eauto.
  - apply IH. eapply chain_right; eauto.
Qed.

Lemma branch_keys (rec : Z -> nat -> nat -> store -> result store)
  (child : Z) (dir : string) (rp dp : nat) (s s' : store) :
  (forall rp dp s s', rec child rp dp s = Ok s' -> keeps_keys s s') ->
  (if 0 <=? child then
     let '(rule_path_child, s) := ints_copy rp s in
     let '(tmp, s) := strs_concat dp [dir] s in
     let '(direction_path_child, s) := strs_copy tmp s in
     rec child rule_path_child direction_path_child s
   else Ok s) = Ok s' ->
  keeps_keys s s'.
Proof.
  intros Hrec H. destruct (0 <=? child).
  - apply Hrec in H. exact H.
  - injection H as <-. intros k Hk. exact Hk.
Qed.

Lemma traverse_keys (fuel : nat) :
  forall node rp dp s s',
    traverse fuel node rp dp s = Ok s' -> keeps_keys s s'.
Proof.
  induction fuel as [|fuel IH]; intros node rp dp s s' H; [discriminate|].
  rewrite traverse_unfold in H.
  apply rbind_ok in H. destruct H as (lc & Hlc & H).
  apply rbind_ok in H. destruct H as (rc & Hrc & H).
  cbv zeta in H.
  apply rbind_ok in H. destruct H as (s2 & H12 & H).
  apply rbind_ok in H. destruct H as (s3 & H23 & H34).
  apply (branch_keys _ _ _ _ _ _ _ (IH lc)) in H23.
  apply (branch_keys _ _ _ _ _ _ _ (IH rc)) in H34.
  intros k Hk. apply H34, H23.
  destruct (_ <? _)%nat.
  - apply rbind_ok in H12. destruct H12 as (rule & _ & H12).
    injection H12 as <-. cbn [rules_dict rules_store].
    apply dict_set_keys. exact Hk.
  - injection H12 as <-. exact Hk.
Qed.

(** The call that a branch makes, when the child exists. *)
Lemma branch_call (rec : Z -> nat -> nat -> store -> result store)
  (child : Z) (dir : string) (rp dp : nat) (s s' : store) (path : list Z)
  (d : list string) :
  (if 0 <=? child then
     let '(rule_path_child, s) := ints_copy rp s in
     let '(tmp, s) := strs_concat dp [dir] s in
     let '(direction_path_child, s) := strs_copy tmp s in
     rec child rule_path_child direction_path_child s
   else Ok s) = Ok s' ->
  0 <= child ->
  int_lists s !! rp = Some path -> str_lists s !! dp = Some d ->
  exists rp' dp' s0,
    rec child rp' dp' s0 = Ok s' /\
    int_lists s0 !! rp' = Some path /\
    str_lists s0 !! dp' = Some (d ++ [dir]).
Proof.
  intros H Hc Hrp Hdp. destruct (Z.leb_spec 0 child); [|lia].
  unfold ints_copy, strs_concat, strs_copy, alloc_ints, alloc_strs,
    read_ints, read_strs in H.
  cbn [int_lists str_lists rules_dict] in H.
  rewrite Hrp, Hdp, lookup_at_end in H. simpl default in H.
  eexists _, _, _. split; [exact H|].
  cbn [int_lists str_lists]. split; apply lookup_at_end.
Qed.

(** Every chain below a visited node, the node's own included, has its rule
    in the RuleSet when its path has more than two entries. *)
Lemma traverse_complete (fuel : nat) :
  forall node rp dp s s' p d q e,
    traverse fuel node rp dp s = Ok s' ->
    int_lists s !! rp = Some p -> str_lists s !! dp = Some d ->
    ancestor_chain tree (p ++ [node]) d ->
    reaches tree (p ++ [node]) d q e -> (2 < length q)%nat ->
    exists k v, rule_of q e = Ok (k, v) /\ In k (map fst (rules_dict s')).
Proof.
  induction fuel as [|fuel IH];
    intros node rp dp s s' p d q e H Hrp Hdp Hchain Hreach Hlen;
    [discriminate|].
  rewrite traverse_unfold in H.
  apply rbind_ok in H. destruct H as (lc & Hlc & H).
  apply rbind_ok in H. destruct H as (rc & Hrc & H).
  cbv zeta in H.
  apply rbind_ok in H. destruct H as (s2 & H12 & H).
  apply rbind_ok in H. destruct H as (s3 & H23 & H34).
  set (s1 := list_append rp node s) in *.
  assert (Hrp1 : int_lists s1 !! rp = Some (p ++ [node])).
  { unfold s1, list_append. cbn [int_lists].
    rewrite (read_ints_lookup _ _ _ Hrp).
    apply list_lookup_insert_eq. eapply lookup_lt_Some; eauto. }
  assert (Hdp1 : str_lists s1 !! dp = Some d) by exact Hdp.
  assert (F12 : frame s1 s2) by (eapply materialize_frame; eauto).
  assert (Hrp2 := frame_lookup_ints _ _ _ _ _ _ F12 Hrp1).
  assert (Hdp2 := frame_lookup_strs _ _ _ _ _ _ F12 Hdp1).
  assert (F23 : frame s2 s3).
  { eapply (branch_frame X tree (traverse fuel));
      [apply traverse_visited | exact H23 | eauto | eauto |].
    intros Hc. eapply chain_left; eauto. }
  assert (Hrp3 := frame_lookup_ints _ _ _ _ _ _ F23 Hrp2).
  assert (Hdp3 := frame_lookup_strs _ _ _ _ _ _ F23 Hdp2).
  assert (K23 : keeps_keys s2 s3).
  { eapply branch_keys; [|exact H23]. apply traverse_keys. }
  assert (K34 : keeps_keys s3 s').
  { eapply branch_keys; [|exact H34]. apply traverse_keys. }
  inversion Hreach as [p1 d1 Ep Ed Eq Ee
                      |p1 a c d1 q1 e1 Hc Hc0 Hr Ep Ed Eq Ee
                      |p1 a c d1 q1 e1 Hc Hc0 Hr Ep Ed Eq Ee].
  - subst q e.
    rewrite (read_ints_lookup _ _ _ Hrp1), (read_strs_lookup _ _ _ Hdp1)
      in H12.
    destruct (Nat.ltb_spec 2 (length (p ++ [node]))); [|lia].
    apply rbind_ok in H12. destruct H12 as ([k v] & Hrule & H12).
    injection H12 as <-. exists k, v. split; [exact Hrule|].
    apply K34, K23. cbn [rules_dict rules_store fst snd].
    apply dict_set_key_in.
  - apply app_inj_tail in Ep. destruct Ep as [-> ->]. subst d1 q1 e1.
    assert (c = lc) by congruence. subst c.
    destruct (branch_call _ _ _ _ _ _ _ _ _ H23 Hc0 Hrp2 Hdp2)
      as (rp' & dp' & s0 & Hcall & Hrp' & Hdp').
    destruct (IH _ _ _ _ _ _ _ _ _ Hcall Hrp' Hdp'
                 (chain_left _ _ _ _ _ Hchain Hlc Hc0) Hr Hlen)
      as (k & v & Hrule & Hin).
    exists k, v. split; [exact Hrule | apply K34; exact Hin].
  - apply app_inj_tail in Ep. destruct Ep as [-> ->]. subst d1 q1 e1.
    assert (c = rc) by congruence. subst c.
    destruct (branch_call _ _ _ _ _ _ _ _ _ H34 Hc0 Hrp3 Hdp3)
      as (rp' & dp' & s0 & Hcall & Hrp' & Hdp').
    destruct (IH _ _ _ _ _ _ _ _ _ Hcall Hrp' Hdp'
                 (chain_right _ _ _ _ _ Hchain Hrc Hc0) Hr Hlen)
      as (k & v & Hrule & Hin).
    exists k, v. split; [exact Hrule | exact Hin].
Qed.

Lemma rules_for_all_chains (fuel : nat) (rules : dict pyval) (q : list Z)
  (e : list string) :
  create fuel = Ok rules -> ancestor_chain tree q e -> (2 < length q)%nat ->
  exists k v, rule_of q e = Ok (k, v) /\ In k (map fst rules).
Proof.
  unfold create_tree_rule_filters. cbn [alloc_ints alloc_strs int_lists
    str_lists rules_dict length app].
  intros H Hchain Hlen. apply rbind_ok in H. destruct H as (s' & H & Hs').
  injection Hs' as <-.
  eapply (traverse_complete fuel 0 0%nat 0%nat _ s' [] []); eauto.
  - apply chain_root.
  - apply chain_reaches. exact Hchain.
Qed.

(** C1 (amended): a rule is materialised at every visited node whose
    node-index path has more than two entries, whether the node is a leaf
    or not, and only at such nodes: every entry of the returned RuleSet is
    the rule of a chain of ancestors of at least three nodes, and every
    chain of ancestors of at least three nodes has the name of its rule
    among the keys. *)
Theorem rules_exactly_for_paths_longer_than_two (fuel : nat)
  (rules : dict pyval) :
  create fuel = Ok rules ->
  (forall k v, In (k, v) rules ->
     exists p d, ancestor_chain tree p d /\ (3 <= length p)%nat /\
                 rule_of p d = Ok (k, v)) /\
  (forall p d, ancestor_chain tree p d -> (3 <= length p)%nat ->
     exists k v, rule_of p d = Ok (k, v) /\ In k (map fst rules)).
Proof.
  intros H. split.
  - intros k v Hin.
    destruct (rules_from_chains _ _ _ _ _ _ H Hin)
      as (p & d & Hchain & Hlen & Hrule).
    exists p, d. repeat split; [exact Hchain | lia | exact Hrule].
  - intros p d Hchain Hlen.
    apply (rules_for_all_chains fuel rules p d H Hchain). lia.
Qed.

End Completeness.

End Properties.

(** ** The fall-through branches of the two helpers *)

Section FallThrough.

Context {V : Type} (le_V gt_V : V -> V -> bool) (str_V : V -> string).

Lemma same_outcome_bind {A B} (m' m : result A) (k' k : A -> result B) :
  same_outcome m' m ->
  (forall a, m = Ok a -> same_outcome (k' a) (k a)) ->
  same_outcome (rbind m' k') (rbind m k).
Proof.
  intros [-> Herr] Hk. destruct m as [a|e]; simpl.
  - apply Hk. reflexivity.
  - split; [reflexivity|]. intros e' [= <-]. apply Herr. reflexivity.
Qed.

Lemma same_outcome_ok {A} (a : A) : same_outcome (Ok a) (Ok a).
Proof. split; [reflexivity | discriminate]. Qed.

Lemma same_outcome_getitem {A} (l : list A) (i : Z) :
  same_outcome (py_getitem l i) (py_getitem l i).
Proof.
  split; [reflexivity|]. intros e H. left. eapply py_getitem_err; eauto.
Qed.

Lemma same_outcome_take {A} (l : list A) (idx : list Z) :
  same_outcome (py_take l idx) (py_take l idx).
Proof.
  split; [reflexivity|]. intros e H. left. eapply py_take_err; eauto.
Qed.

(** With directions that are left or right the loop of
    [_create_rule_filter] never meets [None]. *)
Lemma filter_loop_defined (Xr : DataFrame V) (ths : list V)
  (dirs : list string) (k : nat) :
  Forall valid_direction dirs ->
  (k <= length dirs)%nat -> (length dirs <= length Xr)%nat ->
  (length dirs <= length ths)%nat ->
  exists acc, forall sn,
    fold_r
      (fun rule_filter_srs i =>
         srs <- iloc_col Xr (Z.of_nat i) ;;
         t <- py_getitem ths (Z.of_nat i) ;;
         d <- py_getitem dirs (Z.of_nat i) ;;
         py_and sn rule_filter_srs (_create_single_filter le_V gt_V srs t d))
      (seq 0 k) PyTrue = Ok acc.
Proof.
  intros Hdirs Hk HX Hths. induction k as [|k IH].
  - exists PyTrue. reflexivity.
  - destruct IH as [acc IH]; [lia|].
    destruct (lookup_lt_is_Some_2 Xr k) as [c Hc]; [lia|].
    destruct (lookup_lt_is_Some_2 ths k) as [t Ht]; [lia|].
    destruct (lookup_lt_is_Some_2 dirs k) as [d Hd]; [lia|].
    assert (Hv : valid_direction d) by (eapply Forall_lookup_1; eauto).
    destruct (_create_single_filter le_V gt_V (snd c) t d) as [w|] eqn:Hw.
    2:{ rewrite (single_filter_valid le_V gt_V _ _ _ Hv) in Hw.
        discriminate. }
    exists (match acc with
            | PyTrue => PySeries (map (andb true) w)
            | PySeries a => PySeries (zip_with andb a w)
            end).
    intros sn. rewrite seq_S, Nat.add_0_l, fold_r_app, IH, rbind_ret.
    simpl fold_r. unfold iloc_col. rewrite !py_getitem_nat, Hc, Ht, Hd.
    rewrite !rbind_ret. cbv beta. rewrite Hw. destruct acc; reflexivity.
Qed.

Section Runs.

Variable X : DataFrame V.
Variable tree : Tree V.
Variables sn sn' : list bool -> result pyval.

Lemma rule_for_path_same (p : list Z) (d : list string) :
  Forall valid_direction d -> (2 < length p)%nat ->
  length p = S (length d) ->
  same_outcome (rule_for_path le_V gt_V str_V sn' X tree p d)
               (rule_for_path le_V gt_V str_V sn X tree p d).
Proof.
  intros Hd Hp Hlen. unfold rule_for_path.
  apply same_outcome_bind; [apply same_outcome_take | intros fs Hfs].
  apply same_outcome_bind; [apply same_outcome_take | intros Xr HXr].
  apply same_outcome_bind; [apply same_outcome_take | intros ths Hths].
  assert (HlX : length Xr = length p).
  { apply map_r_length in HXr, Hfs. congruence. }
  assert (Hlt : length ths = length p) by (eapply map_r_length; eauto).
  destruct (filter_loop_defined Xr ths d (length d)) as [acc Hacc];
    auto; try lia.
  unfold _create_rule_filter. rewrite !Hacc, !rbind_ret.
  rewrite create_rule_filter_name_spec, !rbind_ret; auto; try lia.
  - apply same_outcome_ok.
  - destruct d; [simpl in Hlen; lia | discriminate].
Qed.

Lemma branch_same (rec rec' : Z -> nat -> nat -> store -> result store)
  (child : Z) (dir : string) (rp dp : nat) (s : store) (path : list Z)
  (d : list string) :
  (0 <= child -> forall rp dp s,
     int_lists s !! rp = Some path -> str_lists s !! dp = Some (d ++ [dir]) ->
     same_outcome (rec' child rp dp s) (rec child rp dp s)) ->
  int_lists s !! rp = Some path -> str_lists s !! dp = Some d ->
  same_outcome
    (if 0 <=? child then
       let '(rule_path_child, s) := ints_copy rp s in
       let '(tmp, s) := strs_concat dp [dir] s in
       let '(direction_path_child, s) := strs_copy tmp s in
       rec' child rule_path_child direction_path_child s
     else Ok s)
    (if 0 <=? child then
       let '(rule_path_child, s) := ints_copy rp s in
       let '(tmp, s) := strs_concat dp [dir] s in
       let '(direction_path_child, s) := strs_copy tmp s in
       rec child rule_path_child direction_path_child s
     else Ok s).
Proof.
  intros Hrec Hrp Hdp. destruct (Z.leb_spec 0 child) as [Hc|Hc];
    [|apply same_outcome_ok].
  unfold ints_copy, strs_concat, strs_copy, alloc_ints, alloc_strs,
    read_ints, read_strs.
  cbn [int_lists str_lists rules_dict].
  rewrite Hrp, Hdp, lookup_at_end. simpl default.
  apply (Hrec Hc); cbn [int_lists str_lists]; apply lookup_at_end.
Qed.

(** Whatever [srs & None] does, the traversal behaves the same, and the only
    exceptions it can raise are [IndexError] and [RecursionError]. *)
Lemma traverse_same (fuel : nat) :
  forall (node : Z) (rp dp : nat) (s : store) (p : list Z) (d : list string),
    int_lists s !! rp = Some p -> str_lists s !! dp = Some d ->
    ancestor_chain tree (p ++ [node]) d ->
    same_outcome (_traverse le_V gt_V str_V sn' X tree fuel node rp dp s)
                 (_traverse le_V gt_V str_V sn X tree fuel node rp dp s).
Proof.
  induction fuel as [|fuel IH]; intros node rp dp s p d Hrp Hdp Hchain.
  { split; [reflexivity|]. intros e [= <-]. right. reflexivity. }
  rewrite !traverse_unfold.
  apply same_outcome_bind; [apply same_outcome_getitem | intros lc Hlc].
  apply same_outcome_bind; [apply same_outcome_getitem | intros rc Hrc].
  cbv zeta. set (s1 := list_append rp node s).
  assert (Hrp1 : int_lists s1 !! rp = Some (p ++ [node])).
  { unfold s1, list_append. cbn [int_lists].
    rewrite (read_ints_lookup _ _ _ Hrp).
    apply list_lookup_insert_eq. eapply lookup_lt_Some; eauto. }
  assert (Hdp1 : str_lists s1 !! dp = Some d) by exact Hdp.
  apply same_outcome_bind.
  { rewrite (read_ints_lookup _ _ _ Hrp1), (read_strs_lookup _ _ _ Hdp1).
    destruct (Nat.ltb_spec 2 (length (p ++ [node]))) as [Hlen|Hlen];
      [|apply same_outcome_ok].
    apply same_outcome_bind; [|intros; apply same_outcome_ok].
    apply rule_for_path_same;
      eauto using chain_valid, chain_length. }
  intros s2 H12.
  assert (F12 : frame le_V gt_V str_V sn X tree s1 s2)
    by (eapply materialize_frame; eauto).
  assert (Hrp2 := frame_lookup_ints _ _ _ _ _ _ _ _ _ _ F12 Hrp1).
  assert (Hdp2 := frame_lookup_strs _ _ _ _ _ _ _ _ _ _ F12 Hdp1).
  apply same_outcome_bind.
  { eapply branch_same; eauto. intros Hc rp' dp' s' Hrp' Hdp'.
    eapply IH; eauto. eapply chain_left; eauto. }
  intros s3 H23.
  assert (F23 : frame le_V gt_V str_V sn X tree s2 s3).
  { eapply (branch_frame le_V gt_V str_V sn X tree
              (_traverse le_V gt_V str_V sn X tree fuel));
      [apply traverse_visited | exact H23 | eauto | eauto |].
    intros Hc. eapply chain_left; eauto. }
  assert (Hrp3 := frame_lookup_ints _ _ _ _ _ _ _ _ _ _ F23 Hrp2).
  assert (Hdp3 := frame_lookup_strs _ _ _ _ _ _ _ _ _ _ F23 Hdp2).
  eapply branch_same; eauto. intros Hc rp' dp' s' Hrp' Hdp'.
  eapply IH; eauto. eapply chain_right; eauto.
Qed.

End Runs.

(** C9: the direction path of every call that the top-level traversal
    reaches, that is, of every chain of ancestors, holds only the strings
    [left] and [right]; on such a path [_create_single_filter] does not
    return [None], [_create_single_filter_name] does not leave the operator
    unbound, and both helpers return a value for the columns and thresholds
    that a path of more than two nodes selects. Hence the fall-through
    branches are dead: the result of [create_tree_rule_filters] is the same
    whatever [srs & None] would do, and it is never a [TypeError] nor an
    [UnboundLocalError]. *)
Theorem fall_through_unreachable (X : DataFrame V) (tree : Tree V)
  (sn : list bool -> result pyval) :
  (forall p d, ancestor_chain tree p d -> Forall valid_direction d) /\
  (forall srs t dir,
     valid_direction dir -> _create_single_filter le_V gt_V srs t dir <> None) /\
  (forall Xr ths d i,
     Forall valid_direction d ->
     _create_single_filter_name str_V Xr ths d i <> Err UnboundLocalError) /\
  (forall p d Xr ths,
     ancestor_chain tree p d -> (2 < length p)%nat ->
     length Xr = length p -> length ths = length p ->
     is_ok (_create_rule_filter le_V gt_V sn Xr ths d) /\
     is_ok (_create_rule_filter_name str_V Xr ths d)) /\
  (forall fuel,
     (forall sn', create_tree_rule_filters le_V gt_V str_V sn' X tree fuel =
                  create_tree_rule_filters le_V gt_V str_V sn X tree fuel) /\
     create_tree_rule_filters le_V gt_V str_V sn X tree fuel
       <> Err TypeError /\
     create_tree_rule_filters le_V gt_V str_V sn X tree fuel
       <> Err UnboundLocalError).
Proof.
  split; [|split; [|split; [|split]]].
  - intros p d. apply chain_valid.
  - intros srs t dir Hv. rewrite (single_filter_valid le_V gt_V _ _ _ Hv).
    discriminate.
  - intros Xr ths d i Hd. unfold _create_single_filter_name, column_name.
    rewrite !py_getitem_nat.
    destruct (Xr !! i); simpl; [|discriminate].
    destruct (ths !! i); simpl; [|discriminate].
    destruct (d !! i) as [dir|] eqn:Hdir; simpl; [|discriminate].
    assert (Hv : valid_direction dir) by (eapply Forall_lookup_1; eauto).
    destruct Hv as [-> | ->]; discriminate.
  - intros p d Xr ths Hchain Hp HlX Hlt.
    pose proof (chain_length _ _ _ Hchain) as Hlen.
    pose proof (chain_valid _ _ _ Hchain) as Hd.
    split.
    + destruct (filter_loop_defined Xr ths d (length d)) as [acc Hacc];
        auto; try lia.
      exists acc. apply Hacc.
    + exists (spec_rule_name str_V Xr ths d).
      apply create_rule_filter_name_spec; auto; try lia.
      destruct d; [simpl in Hlen; lia | discriminate].
  - intros fuel.
    assert (Hsame : forall sn',
      same_outcome
        (create_tree_rule_filters le_V gt_V str_V sn' X tree fuel)
        (create_tree_rule_filters le_V gt_V str_V sn X tree fuel)).
    { intros sn'. unfold create_tree_rule_filters.
      cbn [alloc_ints alloc_strs int_lists str_lists rules_dict length app].
      apply same_outcome_bind; [|intros; apply same_outcome_ok].
      apply traverse_same with (p := []) (d := []);
        [reflexivity | reflexivity | apply chain_root]. }
    split; [|split].
    + intros sn'. apply Hsame.
    + intros H. destruct (proj2 (Hsame sn) _ H); discriminate.
    + intros H. destruct (proj2 (Hsame sn) _ H); discriminate.
Qed.

(** ** Enough fuel gives a RuleSet *)

Section Returns.

Variable X : DataFrame V.
Variable tree : Tree V.
Variable sn : list bool -> result pyval.

Local Abbreviation traverse := (_traverse le_V gt_V str_V sn X tree).
Local Abbreviation rule_of := (rule_for_path le_V gt_V str_V sn X tree).
Local Abbreviation create :=
  (create_tree_rule_filters le_V gt_V str_V sn X tree).

Local Abbreviation split_ok := (split_ok X tree).

Lemma map_r_defined {A B} (f : A -> result B) (l : list A) :
  (forall x, In x l -> is_ok (f x)) -> is_ok (map_r f l).
Proof.
  induction l as [|x l IH]; intros H; [eexists; reflexivity|].
  destruct (H x) as [y Hy]; [left; reflexivity|].
  destruct IH as [ys Hys]; [intros z Hz; apply H; right; exact Hz|].
  exists (y :: ys). simpl. rewrite Hy, Hys. reflexivity.
Qed.

Lemma rule_for_path_defined (p : list Z) (d : list string) :
  ancestor_chain tree p d -> (2 < length p)%nat ->
  (forall i, In i p -> split_ok i) ->
  is_ok (rule_of p d).
Proof.
  intros Hchain Hlen Hok.
  pose proof (chain_length _ _ _ Hchain) as Hl.
  pose proof (chain_valid _ _ _ Hchain) as Hd.
  destruct (map_r_defined (py_getitem (feature tree)) p) as [fs Hfs].
  { intros i Hi. destruct (Hok i Hi) as (f & -> & _). eexists; reflexivity. }
  destruct (map_r_defined (py_getitem X) fs) as [Xr HXr].
  { intros f Hf. apply list_elem_of_In, list_elem_of_lookup in Hf.
    destruct Hf as [j Hj].
    assert (Hjp : (j < length p)%nat).
    { apply map_r_length in Hfs. rewrite <- Hfs. eapply lookup_lt_Some; eauto. }
    destruct (lookup_lt_is_Some_2 p j Hjp) as [i Hi].
    destruct (Hok i) as (f' & Hf' & HX & _).
    { apply list_elem_of_In. eapply list_elem_of_lookup_2; eauto. }
    assert (f' = f); [|subst; exact HX].
    clear - Hfs Hi Hj Hf'. revert fs j Hfs Hi Hj.
    induction p as [|i0 p IH]; intros fs j Hfs Hi Hj; [destruct j; discriminate|].
    simpl in Hfs. inv_bind Hfs. inv_bind Hfs. injection Hfs as <-.
    destruct j as [|j]; simpl in Hi, Hj.
    - congruence.
    - eapply IH; eauto. }
  destruct (map_r_defined (py_getitem (threshold tree)) p) as [ths Hths].
  { intros i Hi. destruct (Hok i Hi) as (f & _ & _ & Ht). exact Ht. }
  assert (HlX : length Xr = length p).
  { apply map_r_length in HXr, Hfs. congruence. }
  assert (Hlt : length ths = length p) by (eapply map_r_length; eauto).
  destruct (filter_loop_defined Xr ths d (length d)) as [acc Hacc];
    auto; try lia.
  exists (spec_rule_name str_V Xr ths d, acc).
  unfold rule_for_path, iloc_cols, py_take, _create_rule_filter.
  rewrite Hfs, rbind_ret, HXr, rbind_ret, Hths, rbind_ret, Hacc, rbind_ret.
  rewrite create_rule_filter_name_spec; auto; try lia.
  destruct d; [simpl in Hl; lia | discriminate].
Qed.

Lemma branch_returns (rec : Z -> nat -> nat -> store -> result store)
  (child : Z) (dir : string) (rp dp : nat) (s : store) (path : list Z)
  (d : list string) :
  (0 <= child -> forall rp dp s,
     int_lists s !! rp = Some path -> str_lists s !! dp = Some (d ++ [dir]) ->
     is_ok (rec child rp dp s)) ->
  int_lists s !! rp = Some path -> str_lists s !! dp = Some d ->
  is_ok
    (if 0 <=? child then
       let '(rule_path_child, s) := ints_copy rp s in
       let '(tmp, s) := strs_concat dp [dir] s in
       let '(direction_path_child, s) := strs_copy tmp s in
       rec child rule_path_child direction_path_child s
     else Ok s).
Proof.
  intros Hrec Hrp Hdp. destruct (Z.leb_spec 0 child) as [Hc|Hc];
    [|eexists; reflexivity].
  unfold ints_copy, strs_concat, strs_copy, alloc_ints, alloc_strs,
    read_ints, read_strs.
  cbn [int_lists str_lists rules_dict].
  rewrite Hrp, Hdp, lookup_at_end. simpl default.
  apply (Hrec Hc); cbn [int_lists str_lists]; apply lookup_at_end.
Qed.

(** Below a node of depth at most [d], with more fuel than [d] and splits
    that name columns, [_traverse] returns. *)
Lemma traverse_returns (d : nat) :
  forall fuel node rp dp s p dd,
    depth_le tree d node = true -> (d < fuel)%nat ->
    int_lists s !! rp = Some p -> str_lists s !! dp = Some dd ->
    ancestor_chain tree (p ++ [node]) dd ->
    (forall q e, reaches tree (p ++ [node]) dd q e -> (2 < length q)%nat ->
                 is_ok (rule_of q e)) ->
    is_ok (traverse fuel node rp dp s).
Proof.
  induction d as [d IH] using lt_wf_ind.
  intros fuel node rp dp s p dd Hd Hfuel Hrp Hdp Hchain Hrules.
  destruct fuel as [|fuel]; [lia|].
  rewrite traverse_unfold. rewrite depth_le_unfold in Hd.
  destruct (py_getitem (children_left tree) node) as [lc|] eqn:Hlc;
    [|discriminate].
  destruct (py_getitem (children_right tree) node) as [rc|] eqn:Hrc;
    [|discriminate].
  apply andb_true_iff in Hd. destruct Hd as [Hl Hr].
  rewrite !rbind_ret. cbv beta zeta.
  set (s1 := list_append rp node s).
  assert (Hrp1 : int_lists s1 !! rp = Some (p ++ [node])).
  { unfold s1, list_append. cbn [int_lists].
    rewrite (read_ints_lookup _ _ _ Hrp).
    apply list_lookup_insert_eq. eapply lookup_lt_Some; eauto. }
  assert (Hdp1 : str_lists s1 !! dp = Some dd) by exact Hdp.
  assert (HM : exists s2,
    (if (2 <? length (read_ints rp s1))%nat then
       rule <- rule_of (read_ints rp s1) (read_strs dp s1) ;;
       Ok (rules_store (fst rule) (snd rule) s1)
     else Ok s1) = Ok s2).
  { rewrite (read_ints_lookup _ _ _ Hrp1), (read_strs_lookup _ _ _ Hdp1).
    destruct (Nat.ltb_spec 2 (length (p ++ [node]))) as [Hlen|Hlen];
      [|eexists; reflexivity].
    destruct (Hrules _ _ (reaches_here _ _ _) Hlen) as [rule ->].
    eexists; reflexivity. }
  destruct HM as [s2 HM]. rewrite HM, rbind_ret.
  assert (F12 : frame le_V gt_V str_V sn X tree s1 s2)
    by (eapply materialize_frame; eauto).
  assert (Hrp2 := frame_lookup_ints _ _ _ _ _ _ _ _ _ _ F12 Hrp1).
  assert (Hdp2 := frame_lookup_strs _ _ _ _ _ _ _ _ _ _ F12 Hdp1).
  assert (Hchild : forall (left : bool) c,
    (if 0 <=? c then
       match d with O => false | S d' => depth_le tree d' c end
     else true) = true ->
    py_getitem (if left then children_left tree else children_right tree)
               node = Ok c ->
    0 <= c ->
    forall rp dp s,
      int_lists s !! rp = Some (p ++ [node]) ->
      str_lists s !! dp
        = Some (dd ++ [if left then "left" else "right"]) ->
      is_ok (traverse fuel c rp dp s)).
  { intros left c Hc Hget Hc0 rp' dp' s' Hrp' Hdp'.
    destruct (Z.leb_spec 0 c); [|lia].
    destruct d as [|d']; [discriminate|].
    apply (IH d') with (p := p ++ [node])
                       (dd := dd ++ [if left then "left" else "right"]);
      auto; try lia.
    - destruct left; [eapply chain_left | eapply chain_right]; eauto.
    - intros q e Hq. apply Hrules.
      destruct left; [eapply reaches_left | eapply reaches_right]; eauto. }
  destruct (branch_returns (traverse fuel) lc "left" rp dp s2 (p ++ [node]) dd
              (Hchild true lc Hl Hlc) Hrp2 Hdp2) as [s3 H23].
  rewrite H23, rbind_ret.
  assert (F23 : frame le_V gt_V str_V sn X tree s2 s3).
  { eapply (branch_frame le_V gt_V str_V sn X tree (traverse fuel));
      [apply traverse_visited | exact H23 | eauto | eauto |].
    intros Hc. eapply chain_left; eauto. }
  assert (Hrp3 := frame_lookup_ints _ _ _ _ _ _ _ _ _ _ F23 Hrp2).
  assert (Hdp3 := frame_lookup_strs _ _ _ _ _ _ _ _ _ _ F23 Hdp2).
  exact (branch_returns (traverse fuel) rc "right" rp dp s3 (p ++ [node]) dd
           (Hchild false rc Hr Hrc) Hrp3 Hdp3).
Qed.

(** On a tree of depth at most [d] whose splits name columns of the
    dataset, [create_tree_rule_filters] returns a RuleSet as soon as the
    fuel exceeds [d]. *)
Lemma create_returns (d fuel : nat) :
  depth_le tree d 0 = true -> (d < fuel)%nat ->
  (forall p e, ancestor_chain tree p e -> Forall split_ok p) ->
  is_ok (create fuel).
Proof.
  intros Hd Hfuel Hok. unfold create_tree_rule_filters.
  cbn [alloc_ints alloc_strs int_lists str_lists rules_dict length app].
  destruct (traverse_returns d fuel 0 0%nat 0%nat
              (mkStore [[]] [[]] []) [] []) as [s' Hs']; auto.
  - apply chain_root.
  - intros q e Hq Hlen.
    assert (Hchain : ancestor_chain tree q e).
    { eapply reaches_chain; [exact Hq | apply chain_root]. }
    apply rule_for_path_defined; auto.
    intros i Hi. specialize (Hok _ _ Hchain). rewrite Forall_forall in Hok.
    apply Hok. apply list_elem_of_In. exact Hi.
  - rewrite Hs', rbind_ret. eexists; reflexivity.
Qed.

End Returns.

End FallThrough.

(** ** Degenerate inputs *)

Lemma py_getitem_same_length {A B} (l : list A) (l' : list B) (i : Z) :
  length l = length l' -> is_ok (py_getitem l i) -> is_ok (py_getitem l' i).
Proof.
  intros Hlen [x Hx]. unfold py_getitem in *. cbv zeta in *.
  rewrite <- Hlen.
  destruct (_ && _) eqn:Hr; [|discriminate].
  destruct (l' !! _) as [y|] eqn:Hy; [eexists; reflexivity|].
  exfalso. apply lookup_ge_None in Hy.
  apply andb_true_iff in Hr. destruct Hr as [H1 H2].
  apply Z.leb_le in H1. apply Z.ltb_lt in H2. lia.
Qed.

Lemma not_recursion_bind {A B} (m : result A) (k : A -> result B) :
  m <> Err RecursionError ->
  (forall a, m = Ok a -> k a <> Err RecursionError) ->
  rbind m k <> Err RecursionError.
Proof.
  intros Hm Hk. destruct m as [a|e]; simpl; [apply Hk; reflexivity|].
  intros [= ->]. apply Hm. reflexivity.
Qed.

Section ReturnDepth.

Context {V : Type} (le_V gt_V : V -> V -> bool) (str_V : V -> string)
        (series_and_none : list bool -> result pyval).
Variable X : DataFrame V.
Variable tree : Tree V.

Local Abbreviation traverse :=
  (_traverse le_V gt_V str_V series_and_none X tree).

(** A call that returns has visited a subtree of depth below its fuel. *)
Lemma traverse_ok_depth (f : nat) :
  forall node rp dp s s',
    traverse (S f) node rp dp s = Ok s' -> depth_le tree f node = true.
Proof.
  induction f as [|f IH]; intros node rp dp s s' H;
    rewrite traverse_unfold in H;
    apply rbind_ok in H; destruct H as (lc & Hlc & H);
    apply rbind_ok in H; destruct H as (rc & Hrc & H);
    cbv zeta in H;
    apply rbind_ok in H; destruct H as (s2 & _ & H);
    apply rbind_ok in H; destruct H as (s3 & H23 & H34);
    rewrite depth_le_unfold, Hlc, Hrc; apply andb_true_iff; split.
  - destruct (0 <=? lc); [discriminate | reflexivity].
  - destruct (0 <=? rc); [discriminate | reflexivity].
  - destruct (0 <=? lc); [|reflexivity]. eapply IH. exact H23.
  - destruct (0 <=? rc); [|reflexivity]. eapply IH. exact H34.
Qed.

(** The exceptions of a call are [IndexError] and [RecursionError]. *)
Lemma create_error_class (fuel : nat) (e : exn) :
  create_tree_rule_filters le_V gt_V str_V series_and_none X tree fuel = Err e ->
  e = IndexError \/ e = RecursionError.
Proof.
  unfold create_tree_rule_filters.
  cbn [alloc_ints alloc_strs int_lists str_lists rules_dict length app].
  intros H.
  destruct (traverse_same le_V gt_V str_V X tree series_and_none
              series_and_none fuel 0 0%nat 0%nat (mkStore [[]] [[]] [])
              [] [] eq_refl eq_refl (chain_root tree)) as [_ Hs].
  destruct (traverse fuel 0 0%nat 0%nat (mkStore [[]] [[]] []))
    as [s'|e'] eqn:Ht; [discriminate|].
  simpl in H. injection H as <-. apply Hs. reflexivity.
Qed.

End ReturnDepth.

Section Degenerate.

Context {V : Type} (le_V gt_V : V -> V -> bool) (str_V : V -> string)
        (series_and_none : list bool -> result pyval).
Variable X : DataFrame V.
Variable tree : Tree V.

Local Abbreviation traverse :=
  (_traverse le_V gt_V str_V series_and_none X tree).
Local Abbreviation rule_of :=
  (rule_for_path le_V gt_V str_V series_and_none X tree).
Local Abbreviation create :=
  (create_tree_rule_filters le_V gt_V str_V series_and_none X tree).

(** Whether the path of a chain has a rule depends on the dataset through
    its number of columns only. *)
Lemma rule_for_path_columns (X' : DataFrame V) (p : list Z)
  (d : list string) :
  length X' = length X -> ancestor_chain tree p d -> (2 < length p)%nat ->
  is_ok (rule_for_path le_V gt_V str_V series_and_none X' tree p d) ->
  is_ok (rule_of p d).
Proof.
  intros HX Hchain Hlen [[k v] H].
  destruct (rule_for_path_ok _ _ _ _ _ _ _ _ _ _ H)
    as (fs & Xr & ths & Hfs & HXr & Hths & _).
  apply (rule_for_path_defined le_V gt_V str_V X tree series_and_none p d
           Hchain Hlen).
  intros i Hi. unfold iloc_cols, py_take in *.
  destruct (map_r_In _ _ _ _ Hfs Hi) as (f & Hf & Hfin).
  destruct (map_r_In _ _ _ _ HXr Hfin) as (c & Hc & _).
  destruct (map_r_In _ _ _ _ Hths Hi) as (t & Ht & _).
  exists f. split; [exact Hf|]. split.
  - apply (py_getitem_same_length X' X f HX). eexists; exact Hc.
  - eexists; exact Ht.
Qed.

(** Whether the call returns depends on the dataset through its number of
    columns only: when it returns on [X'], it returns on [X] with the same
    fuel and with more. *)
Lemma create_returns_columns (X' : DataFrame V) (fuel fuel' : nat) :
  length X' = length X ->
  is_ok (create_tree_rule_filters le_V gt_V str_V series_and_none X' tree
           fuel) ->
  (fuel <= fuel')%nat ->
  is_ok (create fuel').
Proof.
  intros HX [rules H] Hfuel.
  assert (Hrules : forall q e,
            ancestor_chain tree q e -> (2 < length q)%nat ->
            is_ok (rule_of q e)).
  { intros q e Hq Hlen. apply (rule_for_path_columns X'); auto.
    destruct (rules_for_all_chains le_V gt_V str_V series_and_none X' tree
                fuel rules q e H Hq Hlen) as (k & v & Hr & _).
    eexists; exact Hr. }
  unfold create_tree_rule_filters in *.
  cbn [alloc_ints alloc_strs int_lists str_lists rules_dict length app] in *.
  apply rbind_ok in H. destruct H as (s' & H & _).
  destruct fuel as [|f]; [discriminate|].
  apply traverse_ok_depth in H.
  destruct (traverse_returns le_V gt_V str_V X tree series_and_none f fuel'
              0 0%nat 0%nat (mkStore [[]] [[]] []) [] []) as [s2 Hs2]; auto.
  - apply chain_root.
  - intros q e Hq Hlen. apply Hrules; auto.
    eapply reaches_chain; [exact Hq | apply chain_root].
  - rewrite Hs2, rbind_ret. eexists; reflexivity.
Qed.

(** Without columns no path has a rule: [iloc] raises at the first
    position. *)
Lemma rule_for_path_no_columns (p : list Z) (d : list string) :
  X = [] -> p <> [] -> rule_of p d = Err IndexError.
Proof.
  intros HX Hp. unfold rule_for_path.
  destruct (py_take (feature tree) p) as [fs|e] eqn:Hfs.
  - rewrite rbind_ret. destruct fs as [|f fs].
    + apply map_r_length in Hfs. destruct p; [congruence | discriminate].
    + unfold iloc_cols, py_take. simpl map_r.
      rewrite py_getitem_range by (rewrite HX; simpl; lia). reflexivity.
  - apply py_take_err in Hfs. subst e. reflexivity.
Qed.

(** Without columns the call at a node whose path has more than two
    entries raises [IndexError]. *)
Lemma traverse_no_columns (fuel : nat) (node : Z) (rp dp : nat) (s : store)
  (p : list Z) :
  X = [] -> int_lists s !! rp = Some p -> (2 < length (p ++ [node]))%nat ->
  traverse (S fuel) node rp dp s = Err IndexError.
Proof.
  intros HX Hrp Hlen. rewrite traverse_unfold.
  destruct (py_getitem (children_left tree) node) as [lc|e] eqn:Hlc;
    [|apply py_getitem_err in Hlc; subst e; reflexivity].
  destruct (py_getitem (children_right tree) node) as [rc|e] eqn:Hrc;
    [|apply py_getitem_err in Hrc; subst e; reflexivity].
  rewrite !rbind_ret. cbv beta zeta.
  assert (Hrp1 : int_lists (list_append rp node s) !! rp
                 = Some (p ++ [node])).
  { unfold list_append. cbn [int_lists].
    rewrite (read_ints_lookup _ _ _ Hrp).
    apply list_lookup_insert_eq. eapply lookup_lt_Some; eauto. }
  rewrite (read_ints_lookup _ _ _ Hrp1).
  destruct (Nat.ltb_spec 2 (length (p ++ [node]))); [|lia].
  rewrite rule_for_path_no_columns; [reflexivity | exact HX |].
  destruct p; discriminate.
Qed.

Lemma branch_not_recursion (rec : Z -> nat -> nat -> store -> result store)
  (child : Z) (dir : string) (rp dp : nat) (s : store) (path : list Z)
  (d : list string) :
  (0 <= child -> forall rp dp s,
     int_lists s !! rp = Some path -> str_lists s !! dp = Some (d ++ [dir]) ->
     rec child rp dp s <> Err RecursionError) ->
  int_lists s !! rp = Some path -> str_lists s !! dp = Some d ->
  (if 0 <=? child then
     let '(rule_path_child, s) := ints_copy rp s in
     let '(tmp, s) := strs_concat dp [dir] s in
     let '(direction_path_child, s) := strs_copy tmp s in
     rec child rule_path_child direction_path_child s
   else Ok s) <> Err RecursionError.
Proof.
  intros Hrec Hrp Hdp. destruct (Z.leb_spec 0 child) as [Hc|Hc];
    [|discriminate].
  unfold ints_copy, strs_concat, strs_copy, alloc_ints, alloc_strs,
    read_ints, read_strs.
  cbn [int_lists str_lists rules_dict].
  rewrite Hrp, Hdp, lookup_at_end. simpl default.
  apply (Hrec Hc); cbn [int_lists str_lists]; apply lookup_at_end.
Qed.

(** Without columns a call with fuel for the third level of the tree does
    not run out of it: it raises before, or it returns. *)
Lemma traverse_no_columns_limit (fuel : nat) :
  forall node rp dp s p d,
    X = [] ->
    int_lists s !! rp = Some p -> str_lists s !! dp = Some d ->
    ancestor_chain tree (p ++ [node]) d ->
    (1 <= fuel)%nat -> (4 <= length (p ++ [node]) + fuel)%nat ->
    traverse fuel node rp dp s <> Err RecursionError.
Proof.
  induction fuel as [|fuel IH];
    intros node rp dp s p d HX Hrp Hdp Hchain Hfuel Hlen; [lia|].
  destruct (Nat.ltb_spec 2 (length (p ++ [node]))) as [H2|H2].
  { rewrite (traverse_no_columns fuel node rp dp s p HX Hrp H2).
    discriminate. }
  rewrite traverse_unfold.
  apply not_recursion_bind.
  { intros H. apply py_getitem_err in H. discriminate. }
  intros lc Hlc. apply not_recursion_bind.
  { intros H. apply py_getitem_err in H. discriminate. }
  intros rc Hrc. cbv zeta. set (s1 := list_append rp node s).
  assert (Hrp1 : int_lists s1 !! rp = Some (p ++ [node])).
  { unfold s1, list_append. cbn [int_lists].
    rewrite (read_ints_lookup _ _ _ Hrp).
    apply list_lookup_insert_eq. eapply lookup_lt_Some; eauto. }
  assert (Hdp1 : str_lists s1 !! dp = Some d) by exact Hdp.
  apply not_recursion_bind.
  { rewrite (read_ints_lookup _ _ _ Hrp1).
    destruct (Nat.ltb_spec 2 (length (p ++ [node]))); [lia | discriminate]. }
  intros s2 H12.
  assert (F12 : frame le_V gt_V str_V series_and_none X tree s1 s2)
    by (eapply materialize_frame; eauto).
  assert (Hrp2 := frame_lookup_ints _ _ _ _ _ _ _ _ _ _ F12 Hrp1).
  assert (Hdp2 := frame_lookup_strs _ _ _ _ _ _ _ _ _ _ F12 Hdp1).
  assert (Hlen' : forall c, (4 <= length ((p ++ [node]) ++ [c]) + fuel)%nat).
  { intros c. rewrite length_app. simpl. lia. }
  apply not_recursion_bind.
  { eapply branch_not_recursion; eauto. intros Hc rp' dp' s' Hrp' Hdp'.
    eapply IH; eauto; [eapply chain_left; eauto | lia]. }
  intros s3 H23.
  assert (F23 : frame le_V gt_V str_V series_and_none X tree s2 s3).
  { eapply (branch_frame le_V gt_V str_V series_and_none X tree
              (traverse fuel));
      [apply traverse_visited | exact H23 | eauto | eauto |].
    intros Hc. eapply chain_left; eauto. }
  assert (Hrp3 := frame_lookup_ints _ _ _ _ _ _ _ _ _ _ F23 Hrp2).
  assert (Hdp3 := frame_lookup_strs _ _ _ _ _ _ _ _ _ _ F23 Hdp2).
  eapply branch_not_recursion; eauto. intros Hc rp' dp' s' Hrp' Hdp'.
  eapply IH; eauto; [eapply chain_right; eauto | lia].
Qed.

(** Without columns, a tree with a chain of more than two nodes makes the
    call raise. *)
Lemma create_no_columns (fuel : nat) (p : list Z) (d : list string) :
  X = [] -> ancestor_chain tree p d -> (2 < length p)%nat ->
  (create fuel = Err IndexError \/ create fuel = Err RecursionError) /\
  ((3 <= fuel)%nat -> create fuel = Err IndexError).
Proof.
  intros HX Hchain Hlen.
  assert (Hraise : create fuel = Err IndexError \/
                   create fuel = Err RecursionError).
  { destruct (create fuel) as [rules|e] eqn:H.
    - exfalso.
      destruct (rules_for_all_chains le_V gt_V str_V series_and_none X tree
                  fuel rules p d H Hchain Hlen) as (k & v & Hr & _).
      rewrite rule_for_path_no_columns in Hr; [discriminate | exact HX |].
      destruct p; [simpl in Hlen; lia | discriminate].
    - destruct (create_error_class le_V gt_V str_V series_and_none X tree
                  fuel e H) as [-> | ->]; auto. }
  split; [exact Hraise|].
  intros Hfuel. destruct Hraise as [H|H]; [exact H|]. exfalso.
  unfold create_tree_rule_filters in H.
  cbn [alloc_ints alloc_strs int_lists str_lists rules_dict length app] in H.
  destruct (traverse fuel 0 0%nat 0%nat (mkStore [[]] [[]] []))
    as [s'|e] eqn:Ht; [discriminate|].
  simpl in H. injection H as ->.
  revert Ht.
  apply (traverse_no_columns_limit fuel 0 0%nat 0%nat _ [] []);
    [exact HX | reflexivity | reflexivity | apply chain_root | lia |].
  simpl. lia.
Qed.

(** C7 (amended): on a tree whose root is itself a leaf,
    [create_tree_rule_filters] returns the empty RuleSet and raises
    nothing, whatever the dataset. On a dataset without columns the RuleSet
    is empty whenever one is returned, and the call raises instead as soon
    as a path of more than two nodes is materialised: no path has a rule,
    the call of [_traverse] at a node whose path has more than two entries
    raises, and so does the whole call on a tree that has such a path; the
    exception is [IndexError], unless the fuel runs out before. On a
    dataset without rows nothing is raised because of the dataset: the call
    returns whenever it returns on a dataset with as many columns; and
    every vector of the returned RuleSet is empty. *)
Theorem degenerate_inputs (fuel : nat) :
  (is_leaf tree 0 = true -> (1 <= fuel)%nat -> create fuel = Ok []) /\
  (X = [] -> forall rules, create fuel = Ok rules -> rules = []) /\
  (X = [] ->
     (forall p d, p <> [] -> rule_of p d = Err IndexError) /\
     (forall node rp dp s p,
        int_lists s !! rp = Some p -> (2 < length (p ++ [node]))%nat ->
        (traverse fuel node rp dp s = Err IndexError \/
         traverse fuel node rp dp s = Err RecursionError) /\
        exists n, forall fuel', (n <= fuel')%nat ->
          traverse fuel' node rp dp s = Err IndexError) /\
     (forall p d, ancestor_chain tree p d -> (2 < length p)%nat ->
        (create fuel = Err IndexError \/ create fuel = Err RecursionError) /\
        exists n, forall fuel', (n <= fuel')%nat ->
          create fuel' = Err IndexError)) /\
  (same_rows 0 X ->
   forall X', length X' = length X ->
     is_ok (create_tree_rule_filters le_V gt_V str_V series_and_none X' tree
              fuel) ->
     forall fuel', (fuel <= fuel')%nat -> is_ok (create fuel')) /\
  (same_rows 0 X -> forall rules k v,
     create fuel = Ok rules -> In (k, v) rules -> v = PySeries []).
Proof.
  split; [|split; [|split; [|split]]].
  - apply create_leaf_root.
  - intros HX [|[k v] rules] H; [reflexivity|]. exfalso.
    destruct (rules_from_chains le_V gt_V str_V series_and_none X tree
                _ _ k v H) as (p & d & _ & Hlen & Hrule);
      [left; reflexivity|].
    rewrite rule_for_path_no_columns in Hrule; [discriminate | exact HX |].
    destruct p; [simpl in Hlen; lia | discriminate].
  - intros HX. split; [|split].
    + intros p d Hp. apply rule_for_path_no_columns; auto.
    + intros node rp dp s p Hrp Hlen. split.
      * destruct fuel as [|f]; [right; reflexivity | left].
        apply (traverse_no_columns f node rp dp s p HX Hrp Hlen).
      * exists 1%nat. intros [|f] Hf; [lia|].
        apply (traverse_no_columns f node rp dp s p HX Hrp Hlen).
    + intros p d Hchain Hlen. split.
      * apply (create_no_columns fuel p d HX Hchain Hlen).
      * exists 3%nat. intros fuel'.
        apply (create_no_columns fuel' p d HX Hchain Hlen).
  - intros _ X' HX Hok fuel' Hfuel.
    apply (create_returns_columns X' fuel fuel' HX Hok Hfuel).
  - intros Hrows rules k v H Hin.
    destruct (rules_from_chains le_V gt_V str_V series_and_none X tree
                _ _ _ _ H Hin) as (p & d & Hchain & Hlen & Hrule).
    destruct (rule_of_chain_spec le_V gt_V str_V series_and_none X tree
                0 _ _ _ _ Hrows Hchain Hlen Hrule)
      as (fs & Xr & ths & _ & _ & _ & _ & ->).
    reflexivity.
Qed.

End Degenerate.

(** * Concrete runs *)

Import Run.

Lemma chain_0_2 : ancestor_chain tree5 [0; 2] ["right"].
Proof. apply (chain_right tree5 [] 0 2 []); [apply chain_root | reflexivity | lia]. Qed.

Lemma chain_0_2_3 : ancestor_chain tree5 [0; 2; 3] ["right"; "left"].
Proof.
  apply (chain_left tree5 [0] 2 3 ["right"]);
    [exact chain_0_2 | reflexivity | lia].
Qed.

Lemma tree5_nodes (p : list Z) (e : list string) :
  ancestor_chain tree5 p e -> Forall (fun i => 0 <= i < 5) p.
Proof.
  assert (Hchild : forall (arr : list Z) a c,
            arr = children_left tree5 \/ arr = children_right tree5 ->
            0 <= a < 5 -> py_getitem arr a = Ok c -> 0 <= c -> 0 <= c < 5).
  { intros arr a c Harr Ha Hc Hc0.
    assert (Hcases : a = 0 \/ a = 1 \/ a = 2 \/ a = 3 \/ a = 4) by lia.
    destruct Harr as [-> | ->];
      destruct Hcases as [-> | [-> | [-> | [-> | ->]]]];
      vm_compute in Hc; injection Hc as <-; lia. }
  induction 1 as [|p a c d _ IH Hc Hc0|p a c d _ IH Hc Hc0].
  - apply Forall_cons. split; [lia | constructor].
  - apply Forall_app. split; [exact IH|].
    apply Forall_app in IH. destruct IH as [_ Ha].
    apply Forall_cons in Ha. destruct Ha as [Ha _].
    apply Forall_cons. split; [|constructor].
    apply (Hchild (children_left tree5) a c); auto.
  - apply Forall_app. split; [exact IH|].
    apply Forall_app in IH. destruct IH as [_ Ha].
    apply Forall_cons in Ha. destruct Ha as [Ha _].
    apply Forall_cons. split; [|constructor].
    apply (Hchild (children_right tree5) a c); auto.
Qed.

(** The tree of five nodes and the dataset [X2] meet the conditions of
    [create_returns]. *)
Lemma tree5_returns (fuel : nat) : (2 < fuel)%nat -> is_ok (run fuel X2 tree5).
Proof.
  intros Hfuel.
  apply (create_returns Z.leb Z.gtb str_Z X2 tree5 and_none 2 fuel);
    [reflexivity | exact Hfuel |].
  intros p e Hchain. apply tree5_nodes in Hchain.
  eapply Forall_impl; [exact Hchain|].
  intros i Hi. cbv beta in Hi. unfold split_ok.
  assert (Hcases : i = 0 \/ i = 1 \/ i = 2 \/ i = 3 \/ i = 4) by lia.
  destruct Hcases as [-> | [-> | [-> | [-> | ->]]]];
    eexists; (split; [reflexivity|]); split; eexists; reflexivity.
Qed.

(** C1, refuted as stated: in the tree of five nodes, node 3 is a leaf, its
    path is [0, 2, 3], and the RuleSet holds the rule of that path. *)
Lemma leaf_rule_counterexample :
  is_leaf tree5 3 = true /\
  ancestor_chain tree5 [0; 2; 3] ["right"; "left"] /\
  rule_of X2 tree5 [0; 2; 3] ["right"; "left"]
    = Ok ("a > 5 & b <= 10", PySeries [false; true; false]) /\
  run 3 X2 tree5
    = Ok [("a > 5 & b <= 10", PySeries [false; true; false]);
          ("a > 5 & b > 10", PySeries [false; false; true])].
Proof.
  split; [reflexivity|]. split; [exact chain_0_2_3|].
  split; vm_compute; reflexivity.
Qed.

(** C2, refuted as stated: the tree of five nodes has depth 2, and its
    RuleSet is not empty, whatever the recursion limit. *)
Lemma depth_two_counterexample :
  depth_le tree5 2 0 = true /\
  run 3 X2 tree5
    = Ok [("a > 5 & b <= 10", PySeries [false; true; false]);
          ("a > 5 & b > 10", PySeries [false; false; true])] /\
  forall fuel, run fuel X2 tree5 <> Ok [].
Proof.
  split; [reflexivity|]. split; [vm_compute; reflexivity|].
  intros [|[|[|fuel]]]; vm_compute; discriminate.
Qed.

(** C7, refuted as stated: with the tree of five nodes, a dataset without
    rows gives two rules with empty vectors, and a dataset without columns
    raises [IndexError]. *)
Lemma degenerate_dataset_counterexample :
  run 3 X_no_rows tree5
    = Ok [("a > 5 & b <= 10", PySeries []); ("a > 5 & b > 10", PySeries [])]
  /\ run 3 X_no_columns tree5 = Err IndexError
  /\ (forall fuel, run fuel X_no_rows tree5 <> Ok [])
  /\ (forall fuel, run fuel X_no_columns tree5 <> Ok []).
Proof.
  split; [vm_compute; reflexivity|]. split; [vm_compute; reflexivity|].
  split; intros [|[|[|fuel]]]; vm_compute; discriminate.
Qed.

(** C8, refuted as stated: the path [0, 2, 3] of [tree5_neg] selects the
    column positions -1, 1 and -2 of a dataset whose columns are 0 and 1;
    nothing is raised, and the rule of the path tests column [b] at the
    root. *)
Lemma negative_feature_counterexample :
  py_take (feature tree5_neg) [0; 2; 3] = Ok [-1; 1; -2] /\
  length X2 = 2%nat /\
  run 3 X2 tree5_neg
    = Ok [("b > 5 & b <= 10", PySeries [false; true; false]);
          ("b > 5 & b > 10", PySeries [false; false; true])].
Proof. repeat split; vm_compute; reflexivity. Qed.

(** The theorems above at concrete inputs. *)

Lemma rule_filter_is_rowwise_conjunction_witness :
  exists v,
    _create_rule_filter Z.leb Z.gtb and_none X2 [5; 10] ["right"; "left"]
      = Ok (PySeries v) /\
    length v = 3%nat /\
    forall r, (r < 3)%nat ->
      v !! r =
      Some (forallb
              (fun i => conjunct_holds Z.leb Z.gtb X2 [5; 10]
                          ["right"; "left"] i r)
              (seq 0 (length ["right"; "left"]))) /\
      forall i c t d x,
        X2 !! i = Some c -> [5; 10] !! i = Some t ->
        ["right"; "left"] !! i = Some d -> snd c !! r = Some x ->
        conjunct_holds Z.leb Z.gtb X2 [5; 10] ["right"; "left"] i r =
        if String.eqb d "left" then Z.leb x t else Z.gtb x t.
Proof.
  apply (rule_filter_is_rowwise_conjunction Z.leb Z.gtb and_none
           X2 [5; 10] ["right"; "left"] 3).
  - discriminate.
  - constructor; [right; reflexivity|].
    constructor; [left; reflexivity | constructor].
  - simpl; lia.
  - simpl; lia.
  - repeat constructor.
Defined.

Lemma rule_name_is_join_in_path_order_witness :
  exists texts,
    _create_rule_filter_name str_Z X2 [5; 10] ["right"; "left"]
      = Ok (String.concat " & " texts) /\
    length texts = length ["right"; "left"] /\
    forall i c t d,
      X2 !! i = Some c -> [5; 10] !! i = Some t ->
      ["right"; "left"] !! i = Some d ->
      texts !! i =
      Some (fst c +:+ " " +:+
            (if String.eqb d "left" then "<=" else ">") +:+ " " +:+ str_Z t)
      /\ (d = "left" \/ d = "right").
Proof.
  apply (rule_name_is_join_in_path_order str_Z X2 [5; 10] ["right"; "left"]).
  - discriminate.
  - constructor; [right; reflexivity|].
    constructor; [left; reflexivity | constructor].
  - simpl; lia.
  - simpl; lia.
Defined.

Lemma shallow_tree_has_no_rules_witness :
  create_tree_rule_filters Z.leb Z.gtb str_Z and_none X2 tree3 2 = Ok [].
Proof.
  apply (shallow_tree_has_no_rules Z.leb Z.gtb str_Z and_none X2 tree3 2).
  - reflexivity.
  - lia.
Defined.

Lemma rule_conjunct_count_witness :
  exists p d fs Xr ths texts,
    ancestor_chain tree5 p d /\ length d = (length p - 1)%nat /\
    py_take (feature tree5) p = Ok fs /\ iloc_cols X2 fs = Ok Xr /\
    py_take (threshold tree5) p = Ok ths /\
    texts = map (conjunct_text str_Z Xr ths d) (seq 0 (length d)) /\
    length texts = length d /\
    "a > 5 & b > 10" = String.concat " & " texts /\
    PySeries [false; false; true] =
    PySeries
      (map (fun r =>
              forallb (fun i => conjunct_holds Z.leb Z.gtb Xr ths d i r)
                      (seq 0 (length d)))
           (seq 0 3)).
Proof.
  apply (rule_conjunct_count Z.leb Z.gtb str_Z and_none X2 tree5 3 3
           [("a > 5 & b <= 10", PySeries [false; true; false]);
            ("a > 5 & b > 10", PySeries [false; false; true])]).
  - repeat constructor.
  - vm_compute; reflexivity.
  - simpl; auto.
Defined.

Lemma bad_path_fails_loudly_witness :
  (exists e,
     rule_for_path Z.leb Z.gtb str_Z and_none [("a", [1; 6; 7])] tree5
       ([0; 2] ++ [3]) ["right"; "left"] = Err e) /\
  (exists e,
     _traverse Z.leb Z.gtb str_Z and_none [("a", [1; 6; 7])] tree5 1 3 0 0
       (mkStore [[0; 2]] [["right"; "left"]] []) = Err e).
Proof.
  apply (bad_path_fails_loudly Z.leb Z.gtb str_Z and_none
           [("a", [1; 6; 7])] tree5 1 3 0%nat 0%nat
           (mkStore [[0; 2]] [["right"; "left"]] [])
           [0; 2] ["right"; "left"]).
  - reflexivity.
  - reflexivity.
  - simpl; lia.
  - left. exists 2, 1. split; [simpl; auto|]. split; [reflexivity|].
    right. simpl. lia.
Defined.

Lemma rule_ignores_last_node_split_witness :
  rule_for_path Z.leb Z.gtb str_Z and_none X2 tree5_alt
    ([0; 2] ++ [Z.of_nat 3]) ["right"; "left"]
  = Ok ("a > 5 & b <= 10", PySeries [false; true; false]).
Proof.
  apply (rule_ignores_last_node_split Z.leb Z.gtb str_Z and_none X2
           tree5 tree5_alt 3 [0; 2] ["right"; "left"]).
  - repeat split; try reflexivity;
      destruct i as [|[|[|[|[|i]]]]]; try reflexivity; congruence.
  - exact chain_0_2_3.
  - simpl. intros [H|[H|[]]]; discriminate.
  - intros f' H. injection H as <-. eexists. reflexivity.
  - vm_compute; reflexivity.
Defined.

Lemma rules_exactly_for_paths_longer_than_two_witness :
  (forall k v,
     In (k, v) [("a > 5 & b <= 10", PySeries [false; true; false]);
                ("a > 5 & b > 10", PySeries [false; false; true])] ->
     exists p d, ancestor_chain tree5 p d /\ (3 <= length p)%nat /\
                 rule_for_path Z.leb Z.gtb str_Z and_none X2 tree5 p d
                 = Ok (k, v)) /\
  (forall p d, ancestor_chain tree5 p d -> (3 <= length p)%nat ->
     exists k v, rule_for_path Z.leb Z.gtb str_Z and_none X2 tree5 p d
                 = Ok (k, v) /\
                 In k (map fst
                         [("a > 5 & b <= 10", PySeries [false; true; false]);
                          ("a > 5 & b > 10", PySeries [false; false; true])])).
Proof.
  apply (rules_exactly_for_paths_longer_than_two Z.leb Z.gtb str_Z and_none
           X2 tree5 3).
  vm_compute; reflexivity.
Defined.

Lemma degenerate_inputs_witness :
  create_tree_rule_filters Z.leb Z.gtb str_Z and_none X_no_columns tree1 1
  = Ok [] /\
  (exists n, forall fuel', (n <= fuel')%nat ->
     create_tree_rule_filters Z.leb Z.gtb str_Z and_none X_no_columns tree5
       fuel' = Err IndexError) /\
  (forall fuel', (3 <= fuel')%nat ->
     is_ok (create_tree_rule_filters Z.leb Z.gtb str_Z and_none
              X_no_rows tree5 fuel')) /\
  (forall k v,
     In (k, v) [("a > 5 & b <= 10", PySeries []);
                ("a > 5 & b > 10", PySeries [])] ->
     v = PySeries []).
Proof.
  split; [|split; [|split]].
  - apply (proj1 (degenerate_inputs Z.leb Z.gtb str_Z and_none
                    X_no_columns tree1 1)).
    + reflexivity.
    + lia.
  - apply (proj2 (proj2 (proj2 (proj1 (proj2 (proj2
             (degenerate_inputs Z.leb Z.gtb str_Z and_none
                X_no_columns tree5 3))) eq_refl))
             [0; 2; 3] ["right"; "left"] chain_0_2_3 ltac:(simpl; lia))).
  - apply (proj1 (proj2 (proj2 (proj2
             (degenerate_inputs Z.leb Z.gtb str_Z and_none
                X_no_rows tree5 3)))) ltac:(repeat constructor) X2).
    + reflexivity.
    + eexists. vm_compute. reflexivity.
  - intros k v.
    apply (proj2 (proj2 (proj2 (proj2
             (degenerate_inputs Z.leb Z.gtb str_Z and_none
                X_no_rows tree5 3))))).
    + repeat constructor.
    + vm_compute; reflexivity.
Defined.

Lemma sibling_paths_isolated_witness :
  exists p d fs Xr ths,
    ancestor_chain tree5 p d /\
    rule_for_path Z.leb Z.gtb str_Z and_none X2 tree5 p d
      = Ok ("a > 5 & b > 10", PySeries [false; false; true]) /\
    py_take (feature tree5) p = Ok fs /\ iloc_cols X2 fs = Ok Xr /\
    py_take (threshold tree5) p = Ok ths /\
    "a > 5 & b > 10" = spec_rule_name str_Z Xr ths d.
Proof.
  apply (proj2 (sibling_paths_isolated Z.leb Z.gtb str_Z and_none X2 tree5)
           3%nat [("a > 5 & b <= 10", PySeries [false; true; false]);
                  ("a > 5 & b > 10", PySeries [false; false; true])]).
  - vm_compute; reflexivity.
  - simpl; auto.
Defined.

Lemma fall_through_unreachable_witness :
  Forall valid_direction ["right"; "left"] /\
  create_tree_rule_filters Z.leb Z.gtb str_Z and_none X2 tree5 3
    <> Err UnboundLocalError.
Proof.
  split.
  - apply (proj1 (fall_through_unreachable Z.leb Z.gtb str_Z
                    X2 tree5 and_none) [0; 2; 3]).
    exact chain_0_2_3.
  - apply (fall_through_unreachable Z.leb Z.gtb str_Z X2 tree5 and_none).
Defined.

(** * Further properties *)

(** ** The recursion limit *)

Lemma same_unless_recursion_refl {A} (m : result A) :
  same_unless_recursion m m.
Proof. intros _. reflexivity. Qed.

Lemma same_unless_recursion_bind {A B} (m m' : result A)
  (k k' : A -> result B) :
  same_unless_recursion m m' ->
  (forall a, m = Ok a -> same_unless_recursion (k a) (k' a)) ->
  same_unless_recursion (rbind m k) (rbind m' k').
Proof.
  intros Hm Hk H. destruct m as [a|e].
  - rewrite Hm by discriminate. simpl in *. apply Hk; auto.
  - rewrite Hm; [reflexivity|]. intros Heq. apply H. rewrite Heq. reflexivity.
Qed.

Section RecursionLimit.

Context {V : Type} (le_V gt_V : V -> V -> bool) (str_V : V -> string)
        (series_and_none : list bool -> result pyval).
Variable X : DataFrame V.
Variable tree : Tree V.

Local Abbreviation traverse :=
  (_traverse le_V gt_V str_V series_and_none X tree).
Local Abbreviation create :=
  (create_tree_rule_filters le_V gt_V str_V series_and_none X tree).

Lemma branch_same_unless_recursion
  (rec rec' : Z -> nat -> nat -> store -> result store)
  (child : Z) (dir : string) (rp dp : nat) (s : store) :
  (forall rp dp s,
     same_unless_recursion (rec child rp dp s) (rec' child rp dp s)) ->
  same_unless_recursion
    (if 0 <=? child then
       let '(rule_path_child, s) := ints_copy rp s in
       let '(tmp, s) := strs_concat dp [dir] s in
       let '(direction_path_child, s) := strs_copy tmp s in
       rec child rule_path_child direction_path_child s
     else Ok s)
    (if 0 <=? child then
       let '(rule_path_child, s) := ints_copy rp s in
       let '(tmp, s) := strs_concat dp [dir] s in
       let '(direction_path_child, s) := strs_copy tmp s in
       rec' child rule_path_child direction_path_child s
     else Ok s).
Proof.
  intros Hrec. destruct (0 <=? child);
    [apply Hrec | apply same_unless_recursion_refl].
Qed.

Lemma traverse_one_more (fuel : nat) :
  forall node rp dp s,
    same_unless_recursion (traverse fuel node rp dp s)
                          (traverse (S fuel) node rp dp s).
Proof.
  induction fuel as [|fuel IH]; intros node rp dp s.
  { intros H. exfalso. apply H. reflexivity. }
  rewrite (traverse_unfold _ _ _ _ _ _ (S fuel)), traverse_unfold.
  apply same_unless_recursion_bind;
    [apply same_unless_recursion_refl | intros lc _].
  apply same_unless_recursion_bind;
    [apply same_unless_recursion_refl | intros rc _].
  cbv zeta.
  apply same_unless_recursion_bind;
    [apply same_unless_recursion_refl | intros s2 _].
  apply same_unless_recursion_bind.
  - apply branch_same_unless_recursion. intros. apply IH.
  - intros s3 _. apply branch_same_unless_recursion. intros. apply IH.
Qed.

Lemma traverse_more_fuel (fuel extra : nat) (node : Z) (rp dp : nat)
  (s : store) :
  same_unless_recursion (traverse fuel node rp dp s)
                        (traverse (extra + fuel) node rp dp s).
Proof.
  induction extra as [|extra IH]; [apply same_unless_recursion_refl|].
  intros H. simpl Nat.add. rewrite <- (IH H).
  apply traverse_one_more. rewrite (IH H). exact H.
Qed.

(** X1: a larger recursion limit changes nothing: when
    [create_tree_rule_filters] returns a RuleSet or raises an exception
    other than [RecursionError], it does the same with every larger
    limit. *)
Theorem more_fuel_same_result (fuel fuel' : nat) :
  (fuel <= fuel')%nat ->
  create_tree_rule_filters le_V gt_V str_V series_and_none X tree fuel
    <> Err RecursionError ->
  create_tree_rule_filters le_V gt_V str_V series_and_none X tree fuel' =
  create_tree_rule_filters le_V gt_V str_V series_and_none X tree fuel.
Proof.
  intros Hle H.
  replace fuel' with ((fuel' - fuel) + fuel)%nat by lia.
  unfold create_tree_rule_filters in *.
  cbn [alloc_ints alloc_strs int_lists str_lists rules_dict length app] in *.
  revert H. apply same_unless_recursion_bind.
  - apply traverse_more_fuel.
  - intros a _. apply same_unless_recursion_refl.
Qed.

End RecursionLimit.

(** ** The recursion limit and the depth of the tree *)

Section Depth.

Context {V : Type} (le_V gt_V : V -> V -> bool) (str_V : V -> string)
        (series_and_none : list bool -> result pyval).
Variable X : DataFrame V.
Variable tree : Tree V.

Local Abbreviation traverse :=
  (_traverse le_V gt_V str_V series_and_none X tree).
Local Abbreviation create :=
  (create_tree_rule_filters le_V gt_V str_V series_and_none X tree).

(** Below a node of depth at most [d] a chain has at most [d] more
    nodes. *)
Lemma depth_le_reaches (P : list Z) (dd : list string) (q : list Z)
  (e : list string) :
  reaches tree P dd q e ->
  forall p node d,
    P = p ++ [node] -> depth_le tree d node = true ->
    (length q <= length P + d)%nat.
Proof.
  induction 1 as [P dd|p0 a c dd q e Hc Hc0 _ IH|p0 a c dd q e Hc Hc0 _ IH];
    intros p node d HP Hd; [lia| |];
    apply app_inj_tail in HP; destruct HP as [-> ->];
    rewrite depth_le_unfold, Hc in Hd.
  - destruct (py_getitem (children_right tree) node) as [rc|];
      [|discriminate].
    apply andb_true_iff in Hd. destruct Hd as [Hl _].
    destruct (Z.leb_spec 0 c); [|lia].
    destruct d as [|d']; [discriminate|].
    specialize (IH (p ++ [node]) c d' eq_refl Hl).
    rewrite length_app in IH. simpl in IH. lia.
  - destruct (py_getitem (children_left tree) node) as [lc|];
      [|discriminate].
    apply andb_true_iff in Hd. destruct Hd as [_ Hr].
    destruct (Z.leb_spec 0 c); [|lia].
    destruct d as [|d']; [discriminate|].
    specialize (IH (p ++ [node]) c d' eq_refl Hr).
    rewrite length_app in IH. simpl in IH. lia.
Qed.

(** X2: [create_tree_rule_filters] returns a RuleSet only when the
    recursion limit exceeds the depth of the tree: after a call that has
    returned, no path from the root has more nodes than the limit. A tree
    deeper than the limit is never processed. *)
Theorem returns_only_if_limit_exceeds_depth (fuel : nat)
  (rules : dict pyval) :
  create_tree_rule_filters le_V gt_V str_V series_and_none X tree fuel
    = Ok rules ->
  (exists d, (d < fuel)%nat /\ depth_le tree d 0 = true) /\
  (forall p e, ancestor_chain tree p e -> (length p <= fuel)%nat).
Proof.
  intros H. unfold create_tree_rule_filters in H.
  cbn [alloc_ints alloc_strs int_lists str_lists rules_dict length app] in H.
  apply rbind_ok in H. destruct H as (s' & H & _).
  destruct fuel as [|f]; [discriminate|].
  apply traverse_ok_depth in H. split.
  - exists f. split; [lia | exact H].
  - intros p e Hchain. apply chain_reaches in Hchain.
    apply (depth_le_reaches _ _ _ _ Hchain [] 0 f eq_refl H).
Qed.

End Depth.

(** ** The two helpers on inputs that the traversal never passes *)

Lemma map_r_err_source {A B} (f : A -> result B) (l : list A) (e : exn) :
  map_r f l = Err e -> exists x, In x l /\ f x = Err e.
Proof.
  induction l as [|x l IH]; simpl; [discriminate|].
  destruct (f x) as [y|e'] eqn:Hx; simpl.
  - destruct (map_r f l) as [ys|e']; simpl; [discriminate|].
    intros [= <-]. destruct IH as (x' & Hin & Hx'); [reflexivity|].
    exists x'. split; [right; exact Hin | exact Hx'].
  - intros [= <-]. exists x. split; [left; reflexivity | exact Hx].
Qed.

Lemma valid_directionb_spec (d : string) :
  valid_directionb d = true <-> valid_direction d.
Proof.
  unfold valid_directionb, valid_direction.
  rewrite orb_true_iff, !String.eqb_eq. reflexivity.
Qed.

Lemma forallb_valid (dirs : list string) :
  forallb valid_directionb dirs = true <-> Forall valid_direction dirs.
Proof.
  rewrite forallb_forall, Forall_forall. split; intros H d Hd.
  - apply valid_directionb_spec, H, list_elem_of_In, Hd.
  - apply valid_directionb_spec, H, list_elem_of_In, Hd.
Qed.

Lemma forallb_invalid (dirs : list string) :
  forallb valid_directionb dirs = false ->
  exists dir, In dir dirs /\ ~ valid_direction dir.
Proof.
  induction dirs as [|d dirs IH]; simpl; [discriminate|].
  destruct (valid_directionb d) eqn:Hd; simpl.
  - intros H. destruct (IH H) as (dir & Hin & Hdir).
    exists dir. split; [right; exact Hin | exact Hdir].
  - intros _. exists d. split; [left; reflexivity|].
    intros Hv. apply valid_directionb_spec in Hv. congruence.
Qed.

Section Helpers.

Context {V : Type} (le_V gt_V : V -> V -> bool) (str_V : V -> string)
        (series_and_none : list bool -> result pyval).

(** X3: when there are at least as many columns and thresholds as
    directions, [_create_rule_filter_name] raises [TypeError] on an empty
    direction path (the [reduce] of an empty sequence), returns the joined
    name when every direction is left or right, and raises
    [UnboundLocalError] otherwise; it never raises [IndexError]. *)
Theorem rule_filter_name_outcome (X : DataFrame V) (ths : list V)
  (dirs : list string) :
  (length dirs <= length X)%nat -> (length dirs <= length ths)%nat ->
  _create_rule_filter_name str_V X ths dirs =
  match dirs with
  | [] => Err TypeError
  | _ :: _ =>
      if forallb valid_directionb dirs
      then Ok (spec_rule_name str_V X ths dirs)
      else Err UnboundLocalError
  end.
Proof.
  intros HX Hths. destruct dirs as [|d0 dirs0] eqn:Edirs; [reflexivity|].
  rewrite <- Edirs in *. assert (Hne : dirs <> []) by (subst; discriminate).
  clear Edirs.
  destruct (forallb valid_directionb dirs) eqn:Hall.
  - apply create_rule_filter_name_spec; auto. apply forallb_valid. exact Hall.
  - assert (Hbad : exists dir, In dir dirs /\ ~ valid_direction dir)
      by (apply forallb_invalid; exact Hall).
    destruct Hbad as (dir & Hin & Hdir).
    destruct (create_rule_filter_name_err str_V X ths dirs dir Hin Hdir)
      as [e He].
    rewrite He. f_equal. unfold _create_rule_filter_name in He.
    destruct (map_r _ _) as [names|e'] eqn:Hmap.
    + apply map_r_length in Hmap. rewrite length_seq in Hmap.
      destruct names; [destruct dirs; [congruence | discriminate]|].
      discriminate.
    + simpl in He. injection He as <-.
      apply map_r_err_source in Hmap. destruct Hmap as (i & Hi & Hf).
      apply in_seq in Hi.
      destruct (lookup_lt_is_Some_2 X i) as [c Hc]; [lia|].
      destruct (lookup_lt_is_Some_2 ths i) as [t Ht]; [lia|].
      destruct (lookup_lt_is_Some_2 dirs i) as [d Hd]; [lia|].
      unfold _create_single_filter_name, column_name in Hf.
      rewrite !py_getitem_nat, Hc, Ht, Hd in Hf. simpl in Hf.
      destruct (String.eqb d "left"); [discriminate|].
      destruct (String.eqb d "right"); [discriminate|].
      simpl in Hf. congruence.
Qed.

Lemma filter_prefix_defined (X : DataFrame V) (ths : list V)
  (dirs : list string) (k : nat) :
  Forall valid_direction dirs ->
  (k <= length dirs)%nat -> (k <= length X)%nat -> (k <= length ths)%nat ->
  exists acc,
    fold_r
      (fun rule_filter_srs i =>
         srs <- iloc_col X (Z.of_nat i) ;;
         t <- py_getitem ths (Z.of_nat i) ;;
         d <- py_getitem dirs (Z.of_nat i) ;;
         py_and series_and_none rule_filter_srs
                (_create_single_filter le_V gt_V srs t d))
      (seq 0 k) PyTrue = Ok acc.
Proof.
  intros Hdirs Hk HX Hths. induction k as [|k IH].
  - exists PyTrue. reflexivity.
  - destruct IH as [acc IH]; [lia | lia | lia |].
    destruct (lookup_lt_is_Some_2 X k) as [c Hc]; [lia|].
    destruct (lookup_lt_is_Some_2 ths k) as [t Ht]; [lia|].
    destruct (lookup_lt_is_Some_2 dirs k) as [d Hd]; [lia|].
    assert (Hv : valid_direction d) by (eapply Forall_lookup_1; eauto).
    rewrite seq_S, Nat.add_0_l, fold_r_app, IH, rbind_ret.
    simpl fold_r. unfold iloc_col. rewrite !py_getitem_nat, Hc, Ht, Hd.
    rewrite !rbind_ret. cbv beta.
    rewrite (single_filter_valid le_V gt_V _ _ _ Hv).
    destruct acc; simpl; eauto.
Qed.

(** X4: when the direction path, all of left and right, is longer than the
    selected columns or than the thresholds, both helpers raise
    [IndexError]. *)
Theorem helpers_raise_index_error (X : DataFrame V) (ths : list V)
  (dirs : list string) :
  Forall valid_direction dirs ->
  (length X < length dirs)%nat \/ (length ths < length dirs)%nat ->
  _create_rule_filter le_V gt_V series_and_none X ths dirs = Err IndexError /\
  _create_rule_filter_name str_V X ths dirs = Err IndexError.
Proof.
  intros Hdirs Hshort.
  set (m := Nat.min (length X) (length ths)).
  assert (Hm : (m < length dirs)%nat) by lia.
  assert (Hseq : seq 0 (length dirs)
                 = seq 0 m ++ m :: seq (S m) (length dirs - S m)).
  { replace (length dirs) with (m + S (length dirs - S m))%nat at 1 by lia.
    rewrite seq_app. reflexivity. }
  assert (Hfail : X !! m = None \/ (exists c, X !! m = Some c) /\ ths !! m = None).
  { destruct (X !! m) as [c|] eqn:Hc; [right | left; reflexivity].
    split; [eauto|]. apply lookup_ge_None. apply lookup_lt_Some in Hc. lia. }
  split.
  - unfold _create_rule_filter. rewrite Hseq, fold_r_app.
    destruct (filter_prefix_defined X ths dirs m Hdirs) as [acc ->];
      [lia | lia | lia |].
    rewrite rbind_ret. simpl fold_r. unfold iloc_col.
    rewrite !py_getitem_nat.
    destruct Hfail as [-> | [[c ->] ->]]; reflexivity.
  - unfold _create_rule_filter_name. rewrite Hseq, map_r_app.
    rewrite (map_r_pointwise _ (conjunct_text str_V X ths dirs)).
    + rewrite rbind_ret. simpl map_r.
      unfold _create_single_filter_name at 1. unfold column_name.
      rewrite !py_getitem_nat.
      destruct Hfail as [-> | [[c ->] ->]]; reflexivity.
    + apply Forall_forall. intros i Hi. apply elem_of_seq in Hi.
      destruct (lookup_lt_is_Some_2 X i) as [c Hc]; [lia|].
      destruct (lookup_lt_is_Some_2 ths i) as [t Ht]; [lia|].
      destruct (lookup_lt_is_Some_2 dirs i) as [d Hd]; [lia|].
      assert (Hv : valid_direction d) by (eapply Forall_lookup_1; eauto).
      unfold _create_single_filter_name, column_name, conjunct_text.
      rewrite !py_getitem_nat, Hc, Ht, Hd. simpl rbind.
      destruct Hv as [-> | ->]; reflexivity.
Qed.

End Helpers.

(** ** Cumulative rules *)

Section Cumulative.

Context {V : Type} (le_V gt_V : V -> V -> bool) (str_V : V -> string)
        (series_and_none : list bool -> result pyval).
Variable X : DataFrame V.
Variable tree : Tree V.

Local Abbreviation rule_of :=
  (rule_for_path le_V gt_V str_V series_and_none X tree).

(** What the path [p ++ [a]] selects: the selection of [p], then the column
    and the threshold of the split of [a]. *)
Lemma selection_snoc (p : list Z) (a : Z) (fs : list Z) (Xr : DataFrame V)
  (ths : list V) :
  py_take (feature tree) (p ++ [a]) = Ok fs -> iloc_cols X fs = Ok Xr ->
  py_take (threshold tree) (p ++ [a]) = Ok ths ->
  exists f col t Xp thp,
    py_getitem (feature tree) a = Ok f /\ py_getitem X f = Ok col /\
    py_getitem (threshold tree) a = Ok t /\
    Xr = Xp ++ [col] /\ ths = thp ++ [t] /\
    length Xp = length p /\ length thp = length p.
Proof.
  intros Hfs HXr Hths.
  destruct (py_take_snoc _ _ _ _ Hfs) as (fsp & f & Hfsp & Hf & ->).
  destruct (py_take_snoc _ _ _ _ HXr) as (Xp & col & HXp & Hcol & ->).
  destruct (py_take_snoc _ _ _ _ Hths) as (thp & t & Hthp & Ht & ->).
  exists f, col, t, Xp, thp. repeat split; auto.
  - apply map_r_length in HXp, Hfsp. congruence.
  - apply map_r_length in Hthp. exact Hthp.
Qed.

(** The rule of a child, from the rule of its parent. *)
Lemma rule_for_path_snoc (p : list Z) (a c : Z) (d : list string)
  (dir : string) (k k' : string) (v v' : pyval) :
  length d = length p -> valid_direction dir ->
  rule_of (p ++ [a]) d = Ok (k, v) ->
  rule_of ((p ++ [a]) ++ [c]) (d ++ [dir]) = Ok (k', v') ->
  exists f col t,
    py_getitem (feature tree) a = Ok f /\ py_getitem X f = Ok col /\
    py_getitem (threshold tree) a = Ok t /\
    k' = k +:+ " & " +:+
         (fst col +:+ " " +:+ (if String.eqb dir "left" then "<=" else ">")
              +:+ " " +:+ str_V t) /\
    py_and series_and_none v
      (Some (map (fun x => if String.eqb dir "left"
                           then le_V x t else gt_V x t) (snd col)))
    = Ok v'.
Proof.
  intros Hlen Hdir Hparent Hchild.
  destruct (rule_for_path_ok _ _ _ _ _ _ _ _ _ _ Hparent)
    as (fs & Xr & ths & Hfs & HXr & Hths & _ & _ & Hv & Hk).
  destruct (rule_for_path_ok _ _ _ _ _ _ _ _ _ _ Hchild)
    as (fs' & Xr' & ths' & Hfs' & HXr' & Hths' & _ & _ & Hv' & Hk').
  destruct (selection_snoc _ _ _ _ _ Hfs HXr Hths)
    as (f & col & t & Xp & thp & Hf & Hcol & Ht & -> & -> & HlX & Hlt).
  destruct (py_take_snoc _ _ _ _ Hfs') as (fs0 & fc & Hfs0 & _ & ->).
  assert (fs0 = fs) by congruence. subst fs0.
  destruct (py_take_snoc _ _ _ _ HXr') as (Xr0 & colc & HXr0 & _ & ->).
  assert (Xr0 = Xp ++ [col]) by (unfold iloc_cols in HXr; congruence).
  subst Xr0.
  destruct (py_take_snoc _ _ _ _ Hths') as (th0 & tc & Hth0 & _ & ->).
  assert (th0 = thp ++ [t]) by congruence. subst th0.
  assert (E1 : ((Xp ++ [col]) ++ [colc]) !! length d = Some col).
  { rewrite lookup_app_l by (rewrite length_app; simpl; lia).
    replace (length d) with (length Xp) by lia. apply lookup_at_end. }
  assert (E2 : ((thp ++ [t]) ++ [tc]) !! length d = Some t).
  { rewrite lookup_app_l by (rewrite length_app; simpl; lia).
    replace (length d) with (length thp) by lia. apply lookup_at_end. }
  assert (E3 : (d ++ [dir]) !! length d = Some dir) by apply lookup_at_end.
  exists f, col, t. repeat split; auto.
  - (* the name *)
    unfold _create_rule_filter_name in Hk, Hk'.
    apply rbind_ok in Hk. destruct Hk as (names & Hnames & Hk).
    rewrite length_app, Nat.add_1_r, seq_S, Nat.add_0_l, map_r_app in Hk'.
    rewrite (map_r_ext _ (_create_single_filter_name str_V
                            (Xp ++ [col]) (thp ++ [t]) d)) in Hk'.
    2:{ intros i Hi. apply in_seq in Hi.
        unfold _create_single_filter_name, column_name.
        rewrite !py_getitem_nat.
        rewrite (lookup_app_l (Xp ++ [col])), (lookup_app_l (thp ++ [t])),
          (lookup_app_l d); try reflexivity;
          rewrite ?length_app; simpl; lia. }
    rewrite Hnames, rbind_ret in Hk'. simpl map_r in Hk'.
    unfold _create_single_filter_name at 1 in Hk'. unfold column_name in Hk'.
    rewrite !py_getitem_nat in Hk'.
    rewrite E1, E2, E3 in Hk'. simpl rbind in Hk'.
    assert (Hop : (if String.eqb dir "left" then Ok "<="
                   else if String.eqb dir "right" then Ok ">"
                   else Err UnboundLocalError)
                  = Ok (if String.eqb dir "left" then "<=" else ">")).
    { destruct Hdir as [-> | ->]; reflexivity. }
    rewrite Hop in Hk'. simpl rbind in Hk'.
    destruct names as [|x names]; [discriminate|].
    simpl in Hk, Hk'. injection Hk as <-. injection Hk' as <-.
    rewrite fold_left_app. reflexivity.
  - (* the vector *)
    unfold _create_rule_filter in Hv, Hv'.
    rewrite length_app, Nat.add_1_r, seq_S, Nat.add_0_l, fold_r_app in Hv'.
    rewrite (fold_r_ext _
               (fun rule_filter_srs i =>
                  srs <- iloc_col (Xp ++ [col]) (Z.of_nat i) ;;
                  t0 <- py_getitem (thp ++ [t]) (Z.of_nat i) ;;
                  d0 <- py_getitem d (Z.of_nat i) ;;
                  py_and series_and_none rule_filter_srs
                         (_create_single_filter le_V gt_V srs t0 d0)))
      in Hv'.
    2:{ intros b i Hi. apply in_seq in Hi. unfold iloc_col.
        rewrite !py_getitem_nat.
        rewrite (lookup_app_l (Xp ++ [col])), (lookup_app_l (thp ++ [t])),
          (lookup_app_l d); try reflexivity;
          rewrite ?length_app; simpl; lia. }
    rewrite Hv, rbind_ret in Hv'. simpl fold_r in Hv'.
    unfold iloc_col in Hv'. rewrite !py_getitem_nat in Hv'.
    rewrite E1, E2, E3 in Hv'. simpl rbind in Hv'.
    rewrite (single_filter_valid le_V gt_V _ _ _ Hdir) in Hv'.
    destruct (py_and _ _ _) as [w|e]; simpl in Hv'; congruence.
Qed.

(** X5: rules are cumulative. When a path and the path of one of its
    children both have a rule, the child's name is the parent's name, the
    separator [" & "] and the text of the parent's own split in the
    direction of the child, and the child's vector is the parent's vector
    [&] the comparison of the parent's split column with its threshold. *)
Theorem child_rule_extends_parent (p : list Z) (a c : Z) (d : list string)
  (dir : string) (k k' : string) (v v' : pyval) :
  length d = length p -> valid_direction dir ->
  rule_of (p ++ [a]) d = Ok (k, v) ->
  rule_of ((p ++ [a]) ++ [c]) (d ++ [dir]) = Ok (k', v') ->
  exists f col t,
    py_getitem (feature tree) a = Ok f /\ py_getitem X f = Ok col /\
    py_getitem (threshold tree) a = Ok t /\
    k' = k +:+ " & " +:+
         (fst col +:+ " " +:+ (if String.eqb dir "left" then "<=" else ">")
              +:+ " " +:+ str_V t) /\
    py_and series_and_none v
      (Some (map (fun x => if String.eqb dir "left"
                           then le_V x t else gt_V x t) (snd col)))
    = Ok v'.
Proof. apply rule_for_path_snoc. Qed.

(** X6: when [x > t] is the negation of [x <= t], the rules of the two
    children of a node split the rule of the node: at every row the
    parent's vector is the OR of the two children's vectors, and the two
    are never both true. *)
Theorem sibling_rules_partition (n : nat) (p : list Z) (a cl cr : Z)
  (d : list string) (k kl kr : string) (v vl vr : pyval) :
  (forall x t, gt_V x t = negb (le_V x t)) ->
  same_rows n X ->
  ancestor_chain tree (p ++ [a]) d ->
  rule_of (p ++ [a]) d = Ok (k, v) ->
  rule_of ((p ++ [a]) ++ [cl]) (d ++ ["left"]) = Ok (kl, vl) ->
  rule_of ((p ++ [a]) ++ [cr]) (d ++ ["right"]) = Ok (kr, vr) ->
  exists vec wl wr,
    v = PySeries vec /\ vl = PySeries wl /\ vr = PySeries wr /\
    length vec = n /\
    forall r b, vec !! r = Some b ->
      exists bl br, wl !! r = Some bl /\ wr !! r = Some br /\
                    bl || br = b /\ bl && br = false.
Proof.
  intros Hneg Hrows Hchain Hparent Hleft Hright.
  pose proof (chain_length _ _ _ Hchain) as Hlen.
  rewrite length_app in Hlen. simpl in Hlen.
  assert (Hld : length d = length p) by lia.
  destruct (rule_for_path_ok _ _ _ _ _ _ _ _ _ _ Hparent)
    as (fs & Xr & ths & Hfs & HXr & Hths & HlX & Hlt & Hv & Hk).
  rewrite length_app in HlX, Hlt. simpl in HlX, Hlt.
  assert (Hne : d <> []).
  { intros ->. discriminate Hk. }
  rewrite (create_rule_filter_spec le_V gt_V series_and_none Xr ths d n)
    in Hv; [|exact Hne|eapply chain_valid; eauto|lia|lia|
            eapply iloc_cols_rows; eauto].
  injection Hv as <-.
  destruct (rule_for_path_snoc p a cl d "left" k kl _ vl Hld
              (or_introl eq_refl) Hparent Hleft)
    as (f & col & t & Hf & Hcol & Ht & _ & Hvl).
  destruct (rule_for_path_snoc p a cr d "right" k kr _ vr Hld
              (or_intror eq_refl) Hparent Hright)
    as (f' & col' & t' & Hf' & Hcol' & Ht' & _ & Hvr).
  assert (f' = f) by congruence. subst f'.
  assert (col' = col) by congruence. subst col'.
  assert (t' = t) by congruence. subst t'.
  simpl in Hvl, Hvr. injection Hvl as <-. injection Hvr as <-.
  assert (Hcoln : length (snd col) = n).
  { apply py_getitem_elem in Hcol. unfold same_rows in Hrows.
    rewrite Forall_forall in Hrows. auto. }
  eexists _, _, _. repeat split.
  - unfold spec_rule_filter. rewrite length_map, length_seq. reflexivity.
  - intros r b Hb.
    assert (Hr : (r < n)%nat).
    { apply lookup_lt_Some in Hb. unfold spec_rule_filter in Hb.
      rewrite length_map, length_seq in Hb. exact Hb. }
    destruct (lookup_lt_is_Some_2 (snd col) r) as [x Hx]; [lia|].
    exists (b && le_V x t), (b && gt_V x t).
    rewrite !lookup_zip_with, Hb, !lookup_map, Hx. simpl.
    repeat split; rewrite Hneg; destruct b, (le_V x t); reflexivity.
Qed.

End Cumulative.

(** ** Names tell paths apart *)

Lemma append_nil_r (s : string) : s +:+ "" = s.
Proof.
  induction s as [|ch s IH]; [reflexivity|].
  change (String ch (s +:+ "") = String ch s). now rewrite IH.
Qed.

Lemma append_cancel_l (s s1 s2 : string) : s +:+ s1 = s +:+ s2 -> s1 = s2.
Proof.
  induction s as [|ch s IH]; intros H; [exact H|].
  change (String ch (s +:+ s1) = String ch (s +:+ s2)) in H.
  injection H as H. auto.
Qed.

Lemma concat_split (sep : string) (ts : list string) (x : string)
  (rest : list string) :
  String.concat sep (ts ++ x :: rest) =
  join_before sep ts +:+ x +:+ join_after sep rest.
Proof.
  induction ts as [|t ts IH].
  - simpl app. change (join_before sep []) with "".
    change ("" +:+ x +:+ join_after sep rest) with (x +:+ join_after sep rest).
    revert x. induction rest as [|y rest IHr]; intros x.
    + simpl. symmetry. apply append_nil_r.
    + rewrite concat_cons by discriminate. rewrite IHr. reflexivity.
  - change ((t :: ts) ++ x :: rest) with (t :: (ts ++ x :: rest)).
    rewrite concat_cons by (destruct ts; discriminate).
    rewrite IH. simpl join_before. rewrite !append_assoc. reflexivity.
Qed.

Lemma join_before_concat (sep : string) (ts : list string) :
  ts <> [] -> join_before sep ts = String.concat sep ts +:+ sep.
Proof.
  induction ts as [|t ts IH]; [congruence|]. intros _.
  destruct ts as [|t' ts].
  - simpl. rewrite append_nil_r. reflexivity.
  - rewrite concat_cons by discriminate.
    change (join_before sep (t :: t' :: ts))
      with (t +:+ sep +:+ join_before sep (t' :: ts)).
    rewrite IH by discriminate. rewrite !append_assoc. reflexivity.
Qed.

Lemma py_take_app_inv {A} (l : list A) (p q : list Z) (ys : list A) :
  py_take l (p ++ q) = Ok ys ->
  exists yp yq, py_take l p = Ok yp /\ py_take l q = Ok yq /\ ys = yp ++ yq.
Proof.
  unfold py_take. rewrite map_r_app. intros H.
  apply rbind_ok in H. destruct H as (yp & Hyp & H).
  apply rbind_ok in H. destruct H as (yq & Hyq & H). injection H as <-.
  eauto.
Qed.

(** Two lists are equal, or one continues the other, or they part after a
    common prefix. *)
Lemma list_compare (e1 e2 : list string) :
  e1 = e2 \/
  (exists x r, e2 = e1 ++ x :: r) \/
  (exists x r, e1 = e2 ++ x :: r) \/
  (exists c x1 x2 r1 r2,
     x1 <> x2 /\ e1 = c ++ x1 :: r1 /\ e2 = c ++ x2 :: r2).
Proof.
  revert e2. induction e1 as [|a e1 IH]; intros [|b e2].
  - left. reflexivity.
  - right. left. exists b, e2. reflexivity.
  - right. right. left. exists a, e1. reflexivity.
  - destruct (String.eqb_spec a b) as [->|Hab].
    + destruct (IH e2) as [->|[(x & r & ->)|[(x & r & ->)|H]]].
      * left. reflexivity.
      * right. left. exists x, r. reflexivity.
      * right. right. left. exists x, r. reflexivity.
      * destruct H as (c & x1 & x2 & r1 & r2 & Hx & -> & ->).
        right. right. right. exists (b :: c), x1, x2, r1, r2. auto.
    + right. right. right. exists [], a, b, e1, e2. auto.
Qed.

Section ChainsAndNames.

Context {V : Type} (le_V gt_V : V -> V -> bool) (str_V : V -> string)
        (series_and_none : list bool -> result pyval).
Variable X : DataFrame V.
Variable tree : Tree V.

Local Abbreviation rule_of :=
  (rule_for_path le_V gt_V str_V series_and_none X tree).

Lemma chain_snoc_inv (q : list Z) (d : list string) (x : string) :
  ancestor_chain tree q (d ++ [x]) ->
  exists p a c,
    q = (p ++ [a]) ++ [c] /\ ancestor_chain tree (p ++ [a]) d /\
    valid_direction x.
Proof.
  intros H. remember (d ++ [x]) as e eqn:He.
  destruct H as [|p a c d0 H Hc Hc0|p a c d0 H Hc Hc0].
  - destruct d; discriminate.
  - apply app_inj_tail in He. destruct He as [-> <-].
    exists p, a, c. repeat split; [exact H | left; reflexivity].
  - apply app_inj_tail in He. destruct He as [-> <-].
    exists p, a, c. repeat split; [exact H | right; reflexivity].
Qed.

(** The directions determine the path. *)
Lemma chain_functional (q1 : list Z) (e : list string) :
  ancestor_chain tree q1 e ->
  forall q2, ancestor_chain tree q2 e -> q1 = q2.
Proof.
  induction 1 as [|p a c d H IH Hc Hc0|p a c d H IH Hc Hc0]; intros q2 H2.
  - remember [] as e eqn:He. destruct H2; [reflexivity| |];
      destruct d; discriminate.
  - remember (d ++ ["left"]) as e eqn:He.
    destruct H2 as [|p2 a2 c2 d2 H2 Hc2 Hc20|p2 a2 c2 d2 H2 Hc2 Hc20].
    + destruct d; discriminate.
    + apply app_inj_tail in He. destruct He as [-> _].
      apply IH in H2. apply app_inj_tail in H2. destruct H2 as [-> ->].
      congruence.
    + apply app_inj_tail in He. destruct He as [_ He]. discriminate.
  - remember (d ++ ["right"]) as e eqn:He.
    destruct H2 as [|p2 a2 c2 d2 H2 Hc2 Hc20|p2 a2 c2 d2 H2 Hc2 Hc20].
    + destruct d; discriminate.
    + apply app_inj_tail in He. destruct He as [_ He]. discriminate.
    + apply app_inj_tail in He. destruct He as [-> _].
      apply IH in H2. apply app_inj_tail in H2. destruct H2 as [-> ->].
      congruence.
Qed.

(** A chain goes through the chain of every prefix of its directions. *)
Lemma chain_prefix (c r : list string) :
  forall q, ancestor_chain tree q (c ++ r) ->
  exists qc qr, q = qc ++ qr /\ ancestor_chain tree qc c.
Proof.
  induction r as [|x r IH] using rev_ind; intros q H.
  - rewrite app_nil_r in H. exists q, []. rewrite app_nil_r. auto.
  - rewrite app_assoc in H. apply chain_snoc_inv in H.
    destruct H as (p & a & cc & -> & H & _).
    destruct (IH _ H) as (qc & qr & Hq & Hqc).
    exists qc, (qr ++ [cc]). rewrite Hq, app_assoc. auto.
Qed.

(** The name of a chain that has a rule. *)
Lemma chain_rule_name (q : list Z) (e : list string) (k : string)
  (v : pyval) :
  ancestor_chain tree q e -> rule_of q e = Ok (k, v) ->
  e <> [] /\
  exists fs Xr ths,
    py_take (feature tree) q = Ok fs /\ iloc_cols X fs = Ok Xr /\
    py_take (threshold tree) q = Ok ths /\
    k = spec_rule_name str_V Xr ths e.
Proof.
  intros Hchain Hrule.
  destruct (rule_for_path_ok _ _ _ _ _ _ _ _ _ _ Hrule)
    as (fs & Xr & ths & Hfs & HXr & Hths & HlX & Hlt & _ & Hk).
  pose proof (chain_length _ _ _ Hchain) as Hl.
  assert (Hne : e <> []) by (intros ->; discriminate Hk).
  split; [exact Hne|]. exists fs, Xr, ths. repeat split; auto.
  rewrite create_rule_filter_name_spec in Hk;
    [congruence | exact Hne | eapply chain_valid; eauto | lia | lia].
Qed.

(** The selection of a path agrees with the selection of its prefix. *)
Lemma selection_prefix (qc qr : list Z) (fs : list Z) (Xr : DataFrame V)
  (ths : list V) (fsc : list Z) (Xc : DataFrame V) (thc : list V) :
  py_take (feature tree) (qc ++ qr) = Ok fs -> iloc_cols X fs = Ok Xr ->
  py_take (threshold tree) (qc ++ qr) = Ok ths ->
  py_take (feature tree) qc = Ok fsc -> iloc_cols X fsc = Ok Xc ->
  py_take (threshold tree) qc = Ok thc ->
  forall i, (i < length qc)%nat ->
            Xr !! i = Xc !! i /\ ths !! i = thc !! i.
Proof.
  intros Hfs HXr Hths Hfsc HXc Hthc i Hi.
  destruct (py_take_app_inv _ _ _ _ Hfs) as (f1 & f2 & Hf1 & _ & ->).
  assert (f1 = fsc) by congruence. subst f1.
  destruct (py_take_app_inv _ _ _ _ HXr) as (X1 & X2 & HX1 & _ & ->).
  assert (X1 = Xc) by (unfold iloc_cols in HXc; congruence). subst X1.
  destruct (py_take_app_inv _ _ _ _ Hths) as (t1 & t2 & Ht1 & _ & ->).
  assert (t1 = thc) by congruence. subst t1.
  apply map_r_length in Hfsc, HXc, Hthc.
  rewrite !lookup_app_l by lia. auto.
Qed.

(** The selection of a prefix exists when the selection of the path does. *)
Lemma selection_of_prefix (qc qr : list Z) (fs : list Z) (Xr : DataFrame V)
  (ths : list V) :
  py_take (feature tree) (qc ++ qr) = Ok fs -> iloc_cols X fs = Ok Xr ->
  py_take (threshold tree) (qc ++ qr) = Ok ths ->
  exists fsc Xc thc,
    py_take (feature tree) qc = Ok fsc /\ iloc_cols X fsc = Ok Xc /\
    py_take (threshold tree) qc = Ok thc /\
    length Xc = length qc /\ length thc = length qc.
Proof.
  intros Hfs HXr Hths.
  destruct (py_take_app_inv _ _ _ _ Hfs) as (f1 & f2 & Hf1 & _ & ->).
  destruct (py_take_app_inv _ _ _ _ HXr) as (X1 & X2 & HX1 & _ & ->).
  destruct (py_take_app_inv _ _ _ _ Hths) as (t1 & t2 & Ht1 & _ & ->).
  exists f1, X1, t1. repeat split; auto.
  - apply map_r_length in Hf1, HX1. congruence.
  - apply map_r_length in Ht1. exact Ht1.
Qed.

(** The name of a path whose directions are [c], then [x], then more,
    in terms of what the path of [c] selects. *)
Lemma name_shape (c : list string) (x : string) (r : list string)
  (Xr : DataFrame V) (ths : list V) (Xc : DataFrame V) (thc : list V) :
  (forall i, (i < S (length c))%nat ->
             Xr !! i = Xc !! i /\ ths !! i = thc !! i) ->
  length Xc = S (length c) -> length thc = S (length c) ->
  exists tail,
    spec_rule_name str_V Xr ths (c ++ x :: r) =
    name_prefix str_V Xc thc c
    +:+ (if String.eqb x "left" then "<=" else ">") +:+ tail.
Proof.
  intros Hagree HlX Hlt.
  destruct (lookup_lt_is_Some_2 Xc (length c)) as [col Hcol]; [lia|].
  destruct (lookup_lt_is_Some_2 thc (length c)) as [t Ht]; [lia|].
  exists (" " +:+ str_V t +:+
          join_after " & "
            (map (conjunct_text str_V Xr ths (c ++ x :: r))
                 (seq (S (length c)) (length r)))).
  unfold spec_rule_name, name_prefix.
  rewrite length_app. simpl length. rewrite seq_app. simpl seq.
  rewrite map_app. simpl map. rewrite concat_split, Hcol.
  rewrite (map_ext_in _ (conjunct_text str_V Xc thc c)).
  2:{ intros i Hi. apply in_seq in Hi. unfold conjunct_text.
      destruct (Hagree i) as [-> ->]; [lia|].
      rewrite lookup_app_l by lia. reflexivity. }
  unfold conjunct_text at 2.
  destruct (Hagree (length c)) as [-> ->]; [lia|].
  rewrite Hcol, Ht, list_lookup_middle by reflexivity.
  rewrite !append_assoc. reflexivity.
Qed.

Lemma names_apart_aux (q1 q2 : list Z) (e1 e2 : list string) (k : string)
  (v1 v2 : pyval) :
  ancestor_chain tree q1 e1 -> ancestor_chain tree q2 e2 ->
  rule_of q1 e1 = Ok (k, v1) -> rule_of q2 e2 = Ok (k, v2) ->
  (exists x r, e2 = e1 ++ x :: r) \/
  (exists c x1 x2 r1 r2,
     x1 <> x2 /\ e1 = c ++ x1 :: r1 /\ e2 = c ++ x2 :: r2) ->
  False.
Proof.
  intros Hc1 Hc2 Hr1 Hr2 Hcase.
  destruct (chain_rule_name _ _ _ _ Hc1 Hr1)
    as (Hne1 & fs1 & Xr1 & ths1 & Hfs1 & HXr1 & Hths1 & Hk1).
  destruct (chain_rule_name _ _ _ _ Hc2 Hr2)
    as (Hne2 & fs2 & Xr2 & ths2 & Hfs2 & HXr2 & Hths2 & Hk2).
  destruct Hcase as [(x & r & ->)|(c & x1 & x2 & r1 & r2 & Hx & -> & ->)].
  - (* the second path continues the first *)
    destruct (chain_prefix _ _ _ Hc2) as (qc & qr & -> & Hqc).
    assert (qc = q1) by (eapply chain_functional; eauto). subst qc.
    pose proof (chain_length _ _ _ Hc1) as Hl1.
    assert (HlX : length Xr1 = S (length e1)).
    { apply map_r_length in HXr1, Hfs1. congruence. }
    assert (Hlt : length ths1 = S (length e1)).
    { apply map_r_length in Hths1. congruence. }
    destruct (name_shape e1 x r Xr2 ths2 Xr1 ths1) as [tail Htail]; auto.
    { intros i Hi.
      apply (selection_prefix q1 qr fs2 Xr2 ths2 fs1 Xr1 ths1); auto. lia. }
    rewrite Htail in Hk2. unfold name_prefix in Hk2.
    rewrite join_before_concat in Hk2.
    2:{ destruct e1; [congruence | discriminate]. }
    fold (spec_rule_name str_V Xr1 ths1 e1) in Hk2. rewrite <- Hk1 in Hk2.
    rewrite !append_assoc in Hk2.
    rewrite <- (append_nil_r k) in Hk2 at 1.
    apply append_cancel_l in Hk2. discriminate Hk2.
  - (* the two paths part after [c] *)
    destruct (chain_prefix c (x1 :: r1) _ Hc1) as (qc & qr1 & -> & Hqc).
    destruct (chain_prefix c (x2 :: r2) _ Hc2) as (qc' & qr2 & -> & Hqc').
    assert (qc' = qc) by (eapply chain_functional; eauto). subst qc'.
    pose proof (chain_length _ _ _ Hqc) as Hlc.
    destruct (selection_of_prefix _ _ _ _ _ Hfs1 HXr1 Hths1)
      as (fsc & Xc & thc & Hfsc & HXc & Hthc & HlX & Hlt).
    destruct (name_shape c x1 r1 Xr1 ths1 Xc thc) as [tail1 Ht1];
      [|lia|lia|].
    { intros i Hi.
      apply (selection_prefix qc qr1 fs1 Xr1 ths1 fsc Xc thc); auto. lia. }
    destruct (name_shape c x2 r2 Xr2 ths2 Xc thc) as [tail2 Ht2];
      [|lia|lia|].
    { intros i Hi.
      apply (selection_prefix qc qr2 fs2 Xr2 ths2 fsc Xc thc); auto. lia. }
    rewrite Ht1 in Hk1. rewrite Ht2 in Hk2. rewrite Hk1 in Hk2.
    apply append_cancel_l in Hk2.
    assert (Hv1 : valid_direction x1).
    { apply chain_valid in Hc1. apply Forall_app in Hc1.
      destruct Hc1 as [_ Hc1]. apply Forall_cons in Hc1. tauto. }
    assert (Hv2 : valid_direction x2).
    { apply chain_valid in Hc2. apply Forall_app in Hc2.
      destruct Hc2 as [_ Hc2]. apply Forall_cons in Hc2. tauto. }
    destruct Hv1 as [-> | ->], Hv2 as [-> | ->];
      try congruence; discriminate Hk2.
Qed.

Lemma names_apart (q1 q2 : list Z) (e1 e2 : list string) (k : string)
  (v1 v2 : pyval) :
  ancestor_chain tree q1 e1 -> ancestor_chain tree q2 e2 ->
  rule_of q1 e1 = Ok (k, v1) -> rule_of q2 e2 = Ok (k, v2) ->
  q1 = q2 /\ e1 = e2 /\ v1 = v2.
Proof.
  intros Hc1 Hc2 Hr1 Hr2.
  assert (He : e1 = e2).
  { destruct (list_compare e1 e2) as [He|[H|[H|H]]]; [exact He| | |].
    - exfalso. eapply (names_apart_aux q1 q2); eauto.
    - exfalso. eapply (names_apart_aux q2 q1); eauto.
    - exfalso. eapply (names_apart_aux q1 q2); eauto. }
  subst e2. assert (q1 = q2) by (eapply chain_functional; eauto). subst q2.
  repeat split. congruence.
Qed.

End ChainsAndNames.

(** ** The RuleSet, entry by entry *)

Lemma map_r_In_inv {A B} (f : A -> result B) (l : list A) (ys : list B)
  (y : B) :
  map_r f l = Ok ys -> In y ys -> exists x, In x l /\ f x = Ok y.
Proof.
  revert ys. induction l as [|x l IH]; intros ys H Hin; simpl in H.
  - injection H as <-. destruct Hin.
  - inv_bind H. inv_bind H. injection H as <-. destruct Hin as [<-|Hin].
    + exists x. split; [left; reflexivity | exact Ha].
    + destruct (IH _ Ha0 Hin) as (x' & Hx' & Hf).
      exists x'. split; [right; exact Hx' | exact Hf].
Qed.

Lemma dict_set_fresh {A} (k : string) (v : A) (d : dict A) :
  ~ In k (map fst d) -> dict_set k v d = d ++ [(k, v)].
Proof.
  induction d as [|[k' v'] d IH]; intros Hk; [reflexivity|]. simpl in *.
  destruct (String.eqb_spec k' k) as [->|_]; [tauto|].
  rewrite IH by tauto. reflexivity.
Qed.

Lemma fold_dict_set_fresh {A} (rs acc : dict A) :
  NoDup (map fst acc ++ map fst rs) ->
  fold_left (fun d r => dict_set (fst r) (snd r) d) rs acc = acc ++ rs.
Proof.
  revert acc. induction rs as [|[k v] rs IH]; intros acc Hnd.
  - rewrite app_nil_r. reflexivity.
  - simpl fold_left. simpl map in Hnd.
    rewrite dict_set_fresh.
    + rewrite IH.
      * rewrite <- app_assoc. reflexivity.
      * rewrite map_app, <- app_assoc. exact Hnd.
    + apply NoDup_app in Hnd. destruct Hnd as (_ & Hdis & _).
      intros Hin. apply (Hdis k); [apply list_elem_of_In; exact Hin|].
      left.
Qed.

Lemma dict_get_In {A} (k : string) (v : A) (d : dict A) :
  In (k, v) d -> (forall v', In (k, v') d -> v' = v) ->
  dict_get k d = Some v.
Proof.
  induction d as [|[k' v'] d IH]; intros Hin Huniq; [destruct Hin|].
  simpl. destruct (String.eqb_spec k' k) as [->|Hne].
  - f_equal. apply Huniq. left. reflexivity.
  - apply IH.
    + destruct Hin as [H|H]; [congruence | exact H].
    + intros w Hw. apply Huniq. right. exact Hw.
Qed.

Lemma NoDup_filter_snd {A B} (f : A * B -> bool) (l : list (A * B)) :
  NoDup (map snd l) -> NoDup (map snd (List.filter f l)).
Proof.
  induction l as [|x l IH]; intros H; [constructor|]. simpl in *.
  apply NoDup_cons in H. destruct H as [Hx Hl].
  destruct (f x); [|auto]. simpl. apply NoDup_cons. split; [|auto].
  intros Hin. apply Hx. apply list_elem_of_In in Hin.
  apply list_elem_of_In. apply in_map_iff in Hin.
  destruct Hin as (y & Hy & Hin). apply filter_In in Hin.
  apply in_map_iff. exists y. tauto.
Qed.

Section ExactRuleSet.

Context {V : Type} (le_V gt_V : V -> V -> bool) (str_V : V -> string)
        (series_and_none : list bool -> result pyval).
Variable X : DataFrame V.
Variable tree : Tree V.

Local Abbreviation traverse :=
  (_traverse le_V gt_V str_V series_and_none X tree).
Local Abbreviation rule_of :=
  (rule_for_path le_V gt_V str_V series_and_none X tree).
Local Abbreviation create :=
  (create_tree_rule_filters le_V gt_V str_V series_and_none X tree).
Local Abbreviation rule_of_visit :=
  (fun visit : list Z * list string => rule_of (fst visit) (snd visit)).
Local Abbreviation frame := (frame le_V gt_V str_V series_and_none X tree).

Lemma visits_unfold (fuel : nat) (node : Z) (p : list Z) (d : list string) :
  visits tree (S fuel) node p d =
  match py_getitem (children_left tree) node,
        py_getitem (children_right tree) node with
  | Ok lc, Ok rc =>
      (p ++ [node], d) ::
      (if 0 <=? lc then visits tree fuel lc (p ++ [node]) (d ++ ["left"])
       else []) ++
      (if 0 <=? rc then visits tree fuel rc (p ++ [node]) (d ++ ["right"])
       else [])
  | _, _ => []
  end.
Proof. reflexivity. Qed.

(** Every visit is a chain of ancestors. *)
Lemma visits_chain (fuel : nat) :
  forall node p d,
    ancestor_chain tree (p ++ [node]) d ->
    Forall (fun visit => ancestor_chain tree (fst visit) (snd visit))
           (visits tree fuel node p d).
Proof.
  induction fuel as [|fuel IH]; intros node p d Hchain; [constructor|].
  rewrite visits_unfold.
  destruct (py_getitem (children_left tree) node) as [lc|] eqn:Hlc;
    [|constructor].
  destruct (py_getitem (children_right tree) node) as [rc|] eqn:Hrc;
    [|constructor].
  apply Forall_cons. split; [exact Hchain|]. apply Forall_app. split.
  - destruct (Z.leb_spec 0 lc); [|constructor].
    apply IH. eapply chain_left; eauto.
  - destruct (Z.leb_spec 0 rc); [|constructor].
    apply IH. eapply chain_right; eauto.
Qed.

(** The directions of every visit below a call continue those of the
    call. *)
Lemma visits_prefix (fuel : nat) :
  forall node p d,
    Forall (fun visit => d `prefix_of` snd visit)
           (visits tree fuel node p d).
Proof.
  induction fuel as [|fuel IH]; intros node p d; [constructor|].
  rewrite visits_unfold.
  destruct (py_getitem (children_left tree) node) as [lc|]; [|constructor].
  destruct (py_getitem (children_right tree) node) as [rc|]; [|constructor].
  apply Forall_cons. split; [reflexivity|]. apply Forall_app. split.
  - destruct (0 <=? lc); [|constructor].
    eapply Forall_impl; [apply IH|]. intros visit [k ->].
    exists ("left" :: k). rewrite <- app_assoc. reflexivity.
  - destruct (0 <=? rc); [|constructor].
    eapply Forall_impl; [apply IH|]. intros visit [k ->].
    exists ("right" :: k). rewrite <- app_assoc. reflexivity.
Qed.

(** No two visits have the same directions. *)
Lemma visits_NoDup (fuel : nat) :
  forall node p d, NoDup (map snd (visits tree fuel node p d)).
Proof.
  induction fuel as [|fuel IH]; intros node p d; [constructor|].
  rewrite visits_unfold.
  destruct (py_getitem (children_left tree) node) as [lc|]; [|constructor].
  destruct (py_getitem (children_right tree) node) as [rc|]; [|constructor].
  set (L := if 0 <=? lc then visits tree fuel lc (p ++ [node]) (d ++ ["left"])
            else []).
  set (R := if 0 <=? rc
            then visits tree fuel rc (p ++ [node]) (d ++ ["right"])
            else []).
  assert (HL : Forall (fun visit => (d ++ ["left"]) `prefix_of` snd visit) L).
  { unfold L. destruct (0 <=? lc); [apply visits_prefix | constructor]. }
  assert (HR : Forall (fun visit => (d ++ ["right"]) `prefix_of` snd visit) R).
  { unfold R. destruct (0 <=? rc); [apply visits_prefix | constructor]. }
  assert (HLn : NoDup (map snd L)).
  { unfold L. destruct (0 <=? lc); [apply IH | constructor]. }
  assert (HRn : NoDup (map snd R)).
  { unfold R. destruct (0 <=? rc); [apply IH | constructor]. }
  assert (Hin : forall (S : list (list Z * list string)) x e,
            Forall (fun visit => (d ++ [x]) `prefix_of` snd visit) S ->
            e ∈ map snd S -> exists k, e = d ++ x :: k).
  { intros S x e HS He. apply list_elem_of_In, in_map_iff in He.
    destruct He as (visit & <- & Hv). rewrite Forall_forall in HS.
    destruct (HS visit) as [k Hk]; [apply list_elem_of_In; exact Hv|].
    exists k. rewrite Hk, <- app_assoc. reflexivity. }
  simpl map. rewrite map_app. apply NoDup_cons. split.
  - intros Hd. apply elem_of_app in Hd.
    destruct Hd as [Hd|Hd];
      [destruct (Hin L "left" d HL Hd) as [k Hk]
      |destruct (Hin R "right" d HR Hd) as [k Hk]];
      apply (f_equal length) in Hk; rewrite length_app in Hk;
      simpl in Hk; lia.
  - apply NoDup_app. repeat split; auto.
    intros e HeL HeR.
    destruct (Hin L "left" e HL HeL) as [k1 Hk1].
    destruct (Hin R "right" e HR HeR) as [k2 Hk2].
    rewrite Hk1 in Hk2. apply app_inv_head in Hk2. discriminate.
Qed.

(** Distinct visits have rules of distinct names. *)
Lemma visit_names_NoDup (l : list (list Z * list string))
  (rs : dict pyval) :
  Forall (fun visit => ancestor_chain tree (fst visit) (snd visit)) l ->
  NoDup (map snd l) ->
  map_r rule_of_visit l = Ok rs ->
  NoDup (map fst rs).
Proof.
  revert rs. induction l as [|visit l IH]; intros rs Hchains Hnd H.
  - injection H as <-. constructor.
  - simpl in H. apply rbind_ok in H. destruct H as ([k v] & Hr & H).
    apply rbind_ok in H. destruct H as (rs' & Hrs' & H). injection H as <-.
    apply Forall_cons in Hchains. destruct Hchains as [Hc Hchains].
    simpl map in Hnd. apply NoDup_cons in Hnd. destruct Hnd as [Hnin Hnd].
    simpl map. apply NoDup_cons. split; [|eauto].
    intros Hin. apply Hnin. apply list_elem_of_In in Hin.
    apply in_map_iff in Hin. destruct Hin as ([k' v'] & Hk & Hin).
    simpl in Hk. subst k'.
    destruct (map_r_In_inv _ _ _ _ Hrs' Hin) as (visit' & Hin' & Hr').
    rewrite Forall_forall in Hchains.
    assert (Hc' : ancestor_chain tree (fst visit') (snd visit')).
    { apply Hchains. apply list_elem_of_In. exact Hin'. }
    destruct (names_apart le_V gt_V str_V series_and_none X tree
                _ _ _ _ _ _ _ Hc Hc' Hr Hr') as (_ & He & _).
    rewrite He. apply list_elem_of_In. apply in_map. exact Hin'.
Qed.

(** What one branch of a call adds to the RuleSet. *)
Lemma branch_rules (rec : Z -> nat -> nat -> store -> result store)
  (visit_list : Z -> list Z -> list string -> list (list Z * list string))
  (child : Z) (dir : string) (rp dp : nat) (s s' : store) (path : list Z)
  (d : list string) :
  (forall node rp dp s s' p d,
     rec node rp dp s = Ok s' ->
     int_lists s !! rp = Some p -> str_lists s !! dp = Some d ->
     ancestor_chain tree (p ++ [node]) d ->
     exists rs,
       map_r rule_of_visit (List.filter deep (visit_list node p d)) = Ok rs /\
       rules_dict s' =
       fold_left (fun acc r => dict_set (fst r) (snd r) acc) rs
                 (rules_dict s)) ->
  (if 0 <=? child then
     let '(rule_path_child, s) := ints_copy rp s in
     let '(tmp, s) := strs_concat dp [dir] s in
     let '(direction_path_child, s) := strs_copy tmp s in
     rec child rule_path_child direction_path_child s
   else Ok s) = Ok s' ->
  int_lists s !! rp = Some path -> str_lists s !! dp = Some d ->
  (0 <= child -> ancestor_chain tree (path ++ [child]) (d ++ [dir])) ->
  exists rs,
    map_r rule_of_visit
      (List.filter deep
         (if 0 <=? child then visit_list child path (d ++ [dir]) else []))
      = Ok rs /\
    rules_dict s' =
    fold_left (fun acc r => dict_set (fst r) (snd r) acc) rs (rules_dict s).
Proof.
  intros Hrec H Hrp Hdp Hchain. destruct (Z.leb_spec 0 child) as [Hc|Hc].
  2:{ injection H as <-. exists []. split; reflexivity. }
  unfold ints_copy, strs_concat, strs_copy, alloc_ints, alloc_strs,
    read_ints, read_strs in H.
  cbn [int_lists str_lists rules_dict] in H.
  rewrite Hrp, Hdp, lookup_at_end in H. simpl default in H.
  apply Hrec with (p := path) (d := d ++ [dir]) in H;
    [exact H | apply lookup_at_end | apply lookup_at_end | auto].
Qed.

(** What a call adds to the RuleSet: the rules of its visits whose path
    has more than two entries, one after the other. *)
Lemma traverse_rules (fuel : nat) :
  forall node rp dp s s' p d,
    traverse fuel node rp dp s = Ok s' ->
    int_lists s !! rp = Some p -> str_lists s !! dp = Some d ->
    ancestor_chain tree (p ++ [node]) d ->
    exists rs,
      map_r rule_of_visit (List.filter deep (visits tree fuel node p d))
        = Ok rs /\
      rules_dict s' =
      fold_left (fun acc r => dict_set (fst r) (snd r) acc) rs
                (rules_dict s).
Proof.
  induction fuel as [|fuel IH]; intros node rp dp s s' p d H Hrp Hdp Hchain;
    [discriminate|].
  rewrite traverse_unfold in H. rewrite visits_unfold.
  apply rbind_ok in H. destruct H as (lc & Hlc & H).
  apply rbind_ok in H. destruct H as (rc & Hrc & H).
  rewrite Hlc, Hrc. cbv zeta in H.
  apply rbind_ok in H. destruct H as (s2 & H12 & H).
  apply rbind_ok in H. destruct H as (s3 & H23 & H34).
  set (s1 := list_append rp node s) in *.
  assert (Hrp1 : int_lists s1 !! rp = Some (p ++ [node])).
  { unfold s1, list_append. cbn [int_lists].
    rewrite (read_ints_lookup _ _ _ Hrp).
    apply list_lookup_insert_eq. eapply lookup_lt_Some; eauto. }
  assert (Hdp1 : str_lists s1 !! dp = Some d) by exact Hdp.
  assert (F12 : frame s1 s2) by (eapply materialize_frame; eauto).
  assert (Hrp2 := frame_lookup_ints _ _ _ _ _ _ _ _ _ _ F12 Hrp1).
  assert (Hdp2 := frame_lookup_strs _ _ _ _ _ _ _ _ _ _ F12 Hdp1).
  assert (F23 : frame s2 s3).
  { eapply (branch_frame le_V gt_V str_V series_and_none X tree
              (traverse fuel));
      [apply traverse_visited | exact H23 | eauto | eauto |].
    intros Hc. eapply chain_left; eauto. }
  assert (Hrp3 := frame_lookup_ints _ _ _ _ _ _ _ _ _ _ F23 Hrp2).
  assert (Hdp3 := frame_lookup_strs _ _ _ _ _ _ _ _ _ _ F23 Hdp2).
  assert (H1 : exists r1,
    map_r rule_of_visit (List.filter deep [(p ++ [node], d)]) = Ok r1 /\
    rules_dict s2 =
    fold_left (fun acc r => dict_set (fst r) (snd r) acc) r1 (rules_dict s)).
  { rewrite (read_ints_lookup _ _ _ Hrp1), (read_strs_lookup _ _ _ Hdp1)
      in H12.
    simpl List.filter. unfold deep at 1. simpl fst.
    destruct (2 <? length (p ++ [node]))%nat.
    - apply rbind_ok in H12. destruct H12 as ([k v] & Hrule & H12).
      injection H12 as <-. exists [(k, v)]. simpl. rewrite Hrule.
      split; reflexivity.
    - injection H12 as <-. exists []. split; reflexivity. }
  destruct H1 as (r1 & Hr1 & Hd1).
  destruct (branch_rules (traverse fuel) (visits tree fuel) lc "left"
              rp dp s2 s3 (p ++ [node]) d IH H23 Hrp2 Hdp2)
    as (r2 & Hr2 & Hd2).
  { intros Hc. eapply chain_left; eauto. }
  destruct (branch_rules (traverse fuel) (visits tree fuel) rc "right"
              rp dp s3 s' (p ++ [node]) d IH H34 Hrp3 Hdp3)
    as (r3 & Hr3 & Hd3).
  { intros Hc. eapply chain_right; eauto. }
  exists (r1 ++ r2 ++ r3). split.
  - change ((p ++ [node], d) :: ?l) with ([(p ++ [node], d)] ++ l).
    rewrite !List.filter_app, !map_r_app, Hr1, Hr2, Hr3. reflexivity.
  - rewrite !fold_left_app, <- Hd1, <- Hd2. exact Hd3.
Qed.

(** X9: the returned RuleSet is the list of the rules of the visited nodes
    whose path has more than two entries, in the order of the traversal:
    a node before its children, the left child before the right one. *)
Theorem ruleset_is_rules_in_preorder (fuel : nat) (rules : dict pyval) :
  create fuel = Ok rules ->
  map_r rule_of_visit (List.filter deep (visits tree fuel 0 [] []))
  = Ok rules.
Proof.
  unfold create_tree_rule_filters.
  cbn [alloc_ints alloc_strs int_lists str_lists rules_dict length app].
  intros H. apply rbind_ok in H. destruct H as (s' & H & Hs').
  injection Hs' as <-.
  apply traverse_rules with (p := []) (d := []) in H;
    [|reflexivity|reflexivity|apply chain_root].
  destruct H as (rs & Hrs & ->). cbn [rules_dict].
  rewrite fold_dict_set_fresh; [exact Hrs|]. simpl app.
  eapply (visit_names_NoDup (List.filter deep (visits tree fuel 0 [] [])));
    [| |exact Hrs].
  - apply Forall_forall. intros visit Hv. apply list_elem_of_In in Hv.
    apply filter_In in Hv. destruct Hv as [Hv _].
    pose proof (visits_chain fuel 0 [] [] (chain_root tree)) as Hall.
    rewrite Forall_forall in Hall. apply Hall, list_elem_of_In, Hv.
  - apply NoDup_filter_snd, visits_NoDup.
Qed.

(** X7: within one tree the name tells the path: two chains of ancestors
    whose rules have the same name are the same chain (same nodes, same
    directions), so that one call never overwrites an entry of its
    RuleSet. *)
Theorem same_name_same_path (q1 q2 : list Z) (e1 e2 : list string)
  (k : string) (v1 v2 : pyval) :
  ancestor_chain tree q1 e1 -> ancestor_chain tree q2 e2 ->
  rule_of q1 e1 = Ok (k, v1) -> rule_of q2 e2 = Ok (k, v2) ->
  q1 = q2 /\ e1 = e2 /\ v1 = v2.
Proof. apply names_apart. Qed.

(** X8: for every chain of ancestors of at least three nodes, looking up
    the name of its rule in the returned RuleSet gives the vector of its
    rule. *)
Theorem path_rule_is_stored (fuel : nat) (rules : dict pyval) (q : list Z)
  (e : list string) :
  create fuel = Ok rules -> ancestor_chain tree q e -> (3 <= length q)%nat ->
  exists k v, rule_of q e = Ok (k, v) /\ dict_get k rules = Some v.
Proof.
  intros H Hchain Hlen.
  destruct (rules_for_all_chains le_V gt_V str_V series_and_none X tree
              fuel rules q e H Hchain) as (k & v & Hrule & Hk); [lia|].
  exists k, v. split; [exact Hrule|].
  assert (Hsame : forall w, In (k, w) rules -> w = v).
  { intros w Hw.
    destruct (rules_from_chains le_V gt_V str_V series_and_none X tree
                fuel rules k w H Hw) as (q' & e' & Hc' & _ & Hr').
    destruct (names_apart le_V gt_V str_V series_and_none X tree
                _ _ _ _ _ _ _ Hc' Hchain Hr' Hrule) as (_ & _ & Hv).
    exact Hv. }
  apply in_map_iff in Hk. destruct Hk as ([k' w] & Hk' & Hin).
  simpl in Hk'. subst k'.
  apply dict_get_In; [|exact Hsame].
  rewrite <- (Hsame w Hin). exact Hin.
Qed.

End ExactRuleSet.

(** ** The further properties at concrete inputs *)

Lemma gtb_is_not_leb (x t : Z) : Z.gtb x t = negb (Z.leb x t).
Proof. rewrite Z.gtb_ltb, Z.ltb_antisym. reflexivity. Qed.

Lemma more_fuel_same_result_witness :
  create_tree_rule_filters Z.leb Z.gtb str_Z and_none X2 tree5 5 =
  create_tree_rule_filters Z.leb Z.gtb str_Z and_none X2 tree5 3.
Proof.
  apply (more_fuel_same_result Z.leb Z.gtb str_Z and_none X2 tree5 3 5).
  - lia.
  - vm_compute. discriminate.
Defined.

Lemma returns_only_if_limit_exceeds_depth_witness :
  (exists d, (d < 3)%nat /\ depth_le tree5 d 0 = true) /\
  (forall p e, ancestor_chain tree5 p e -> (length p <= 3)%nat).
Proof.
  apply (returns_only_if_limit_exceeds_depth Z.leb Z.gtb str_Z and_none
           X2 tree5 3
           [("a > 5 & b <= 10", PySeries [false; true; false]);
            ("a > 5 & b > 10", PySeries [false; false; true])]).
  vm_compute; reflexivity.
Defined.

Lemma rule_filter_name_outcome_witness :
  _create_rule_filter_name str_Z X2 [5; 10] ["right"; "up"] =
  match ["right"; "up"] with
  | [] => Err TypeError
  | _ :: _ =>
      if forallb valid_directionb ["right"; "up"]
      then Ok (spec_rule_name str_Z X2 [5; 10] ["right"; "up"])
      else Err UnboundLocalError
  end.
Proof.
  apply (rule_filter_name_outcome str_Z X2 [5; 10] ["right"; "up"]).
  - simpl; lia.
  - simpl; lia.
Defined.

Lemma helpers_raise_index_error_witness :
  _create_rule_filter Z.leb Z.gtb and_none [("a", [1; 6; 7])] [5; 10]
    ["right"; "left"] = Err IndexError /\
  _create_rule_filter_name str_Z [("a", [1; 6; 7])] [5; 10]
    ["right"; "left"] = Err IndexError.
Proof.
  apply (helpers_raise_index_error Z.leb Z.gtb str_Z and_none
           [("a", [1; 6; 7])] [5; 10] ["right"; "left"]).
  - constructor; [right; reflexivity|].
    constructor; [left; reflexivity | constructor].
  - left. simpl; lia.
Defined.

Lemma child_rule_extends_parent_witness :
  exists f col t,
    py_getitem (feature tree5) 2 = Ok f /\ py_getitem X2 f = Ok col /\
    py_getitem (threshold tree5) 2 = Ok t /\
    "a > 5 & b <= 10" =
    "a > 5" +:+ " & " +:+
      (fst col +:+ " " +:+ (if String.eqb "left" "left" then "<=" else ">")
           +:+ " " +:+ str_Z t) /\
    py_and and_none (PySeries [false; true; true])
      (Some (map (fun x => if String.eqb "left" "left"
                           then Z.leb x t else Z.gtb x t) (snd col)))
    = Ok (PySeries [false; true; false]).
Proof.
  apply (child_rule_extends_parent Z.leb Z.gtb str_Z and_none X2 tree5
           [0] 2 3 ["right"] "left").
  - reflexivity.
  - left; reflexivity.
  - vm_compute; reflexivity.
  - vm_compute; reflexivity.
Defined.

Lemma sibling_rules_partition_witness :
  exists vec wl wr,
    PySeries [false; true; true] = PySeries vec /\
    PySeries [false; true; false] = PySeries wl /\
    PySeries [false; false; true] = PySeries wr /\
    length vec = 3%nat /\
    forall r b, vec !! r = Some b ->
      exists bl br, wl !! r = Some bl /\ wr !! r = Some br /\
                    bl || br = b /\ bl && br = false.
Proof.
  apply (sibling_rules_partition Z.leb Z.gtb str_Z and_none X2 tree5 3
           [0] 2 3 4 ["right"] "a > 5" "a > 5 & b <= 10" "a > 5 & b > 10").
  - exact gtb_is_not_leb.
  - repeat constructor.
  - exact chain_0_2.
  - vm_compute; reflexivity.
  - vm_compute; reflexivity.
  - vm_compute; reflexivity.
Defined.

Lemma same_name_same_path_witness :
  [0; 2; 3] = [0; 2; 3] /\ ["right"; "left"] = ["right"; "left"] /\
  PySeries [false; true; false] = PySeries [false; true; false].
Proof.
  apply (same_name_same_path Z.leb Z.gtb str_Z and_none X2 tree5
           [0; 2; 3] [0; 2; 3] ["right"; "left"] ["right"; "left"]
           "a > 5 & b <= 10").
  - exact chain_0_2_3.
  - exact chain_0_2_3.
  - vm_compute; reflexivity.
  - vm_compute; reflexivity.
Defined.

Lemma path_rule_is_stored_witness :
  exists k v,
    rule_for_path Z.leb Z.gtb str_Z and_none X2 tree5 [0; 2; 3]
      ["right"; "left"] = Ok (k, v) /\
    dict_get k [("a > 5 & b <= 10", PySeries [false; true; false]);
                ("a > 5 & b > 10", PySeries [false; false; true])]
    = Some v.
Proof.
  apply (path_rule_is_stored Z.leb Z.gtb str_Z and_none X2 tree5 3).
  - vm_compute; reflexivity.
  - exact chain_0_2_3.
  - simpl; lia.
Defined.

Lemma ruleset_is_rules_in_preorder_witness :
  map_r (fun visit : list Z * list string =>
           rule_for_path Z.leb Z.gtb str_Z and_none X2 tree5
             (fst visit) (snd visit))
        (List.filter deep (visits tree5 3 0 [] []))
  = Ok [("a > 5 & b <= 10", PySeries [false; true; false]);
        ("a > 5 & b > 10", PySeries [false; false; true])].
Proof.
  apply (ruleset_is_rules_in_preorder Z.leb Z.gtb str_Z and_none X2 tree5 3).
  vm_compute; reflexivity.
Defined.
